(** * Base-station calculator: the form client (front/src/App.jsx) and the
      calculation service it talks to (README.md)

    The development has two parts.

    - [JS], [Form], [App1] and [App2] embed the JavaScript of
      [front/src/App.jsx]: the helpers [toNumber] and [parseStations] and
      the request payload that either version of the [App] component
      builds from its form state; [Any] is [toNumber] on the values that
      no form field holds; [Handlers] and [Submit] embed the component's
      state handlers and its submission of the request.  JavaScript
      numbers are IEEE-754 binary64 values, represented by [spec_float];
      strings are sequences of UTF-16 code units.

    - [Engine] is the calculation service (validator, handover resolver,
      calculation engine).  Its Python sources are not part of the front
      end; the model follows the written description and [README.md], over
      the real numbers. *)

From Stdlib Require Import ZArith NArith List String Ascii Bool Lia.
From Stdlib Require Import Floats.SpecFloat.
From Stdlib Require Import Reals Lra Permutation Sorted.
From Stdlib Require DecimalNat DecimalFacts.
Import ListNotations.

(* ================================================================= *)
(** ** JavaScript built-ins used by the client *)

Module JS.

Local Open Scope N_scope.

(** A JavaScript number: an IEEE-754 binary64 value. *)
Definition number : Type := spec_float.

Definition prec : Z := 53%Z.
Definition emax : Z := 1024%Z.

Definition NaN : number := S754_nan.
Definition Infinity : number := S754_infinity false.
Definition zero : number := S754_zero false.

(** [Math.PI] = 0x1.921FB54442D18p+1. *)
Definition Math_PI : number := S754_finite false 7074237752028440 (-51)%Z.

(** [Number.isFinite(n)] for a value that already is a number. *)
Definition isFinite (n : number) : bool :=
  match n with
  | S754_zero _ | S754_finite _ _ _ => true
  | S754_infinity _ | S754_nan => false
  end.

(** The number nearest to the integer [m] (ties to even). *)
Definition ofZ (m : Z) : number := binary_normalize prec emax m 0%Z false.

(** The number nearest to [(-1)^neg * m * 10^e] (ties to even); the zero
    keeps the sign of the literal. *)
Definition ofDecimal (neg : bool) (m : N) (e : Z) : number :=
  match m with
  | N0 => S754_zero neg
  | Npos p =>
      match e with
      | Zneg k =>
          SFdiv prec emax (S754_finite neg p 0%Z)
                (S754_finite false (Pos.pow 10 k) 0%Z)
      | _ => binary_normalize prec emax
               ((if neg then Z.neg p else Z.pos p) * 10 ^ e)%Z 0%Z neg
      end
  end.

(** A string is a sequence of UTF-16 code units. *)
Definition jsstring : Type := list N.

Definition cu (c : ascii) : N := N_of_ascii c.

Definition u16 (s : string) : jsstring := map cu (list_ascii_of_string s).

(** WhiteSpace and LineTerminator code points, as [String.prototype.trim]
    and the StringNumericLiteral grammar understand them. *)
Definition isWhiteSpace (c : N) : bool :=
  existsb (N.eqb c)
    [9; 10; 11; 12; 13; 32; 160; 5760; 8232; 8233; 8239; 8287; 12288; 65279]
  || ((8192 <=? c) && (c <=? 8202)).

Fixpoint trimStart (s : jsstring) : jsstring :=
  match s with
  | c :: rest => if isWhiteSpace c then trimStart rest else s
  | [] => []
  end.

Definition trimEnd (s : jsstring) : jsstring := rev (trimStart (rev s)).

(** [s.trim()] *)
Definition trim (s : jsstring) : jsstring := trimEnd (trimStart s).

(** [s.split(sep)] for a separator of one code unit. *)
Fixpoint split (sep : N) (s : jsstring) : list jsstring :=
  match s with
  | [] => [[]]
  | c :: rest =>
      if N.eqb c sep then [] :: split sep rest
      else match split sep rest with
           | t :: ts => (c :: t) :: ts
           | [] => [[c]]
           end
  end.

(** *** StringToNumber *)

Definition digitOf (base : N) (c : N) : option N :=
  let v :=
    if (48 <=? c) && (c <=? 57) then Some (c - 48)
    else if (97 <=? c) && (c <=? 102) then Some (c - 87)
    else if (65 <=? c) && (c <=? 70) then Some (c - 55)
    else None in
  match v with
  | Some d => if d <? base then Some d else None
  | None => None
  end.

(** Reads the longest prefix of digits in [base]; returns the value read so
    far, the number of digits read and the rest of the input. *)
Fixpoint readDigits (base : N) (acc : N) (cnt : nat) (s : jsstring)
  : N * nat * jsstring :=
  match s with
  | c :: rest =>
      match digitOf base c with
      | Some d => readDigits base (acc * base + d) (S cnt) rest
      | None => (acc, cnt, s)
      end
  | [] => (acc, cnt, [])
  end.

Definition readSign (s : jsstring) : bool * jsstring :=
  match s with
  | 43 :: rest => (false, rest)
  | 45 :: rest => (true, rest)
  | _ => (false, s)
  end.

(** ExponentPart, when present: [e] or [E], an optional sign and at least
    one digit, up to the end of the literal. *)
Definition readExponent (s : jsstring) : option Z :=
  match s with
  | [] => Some 0%Z
  | c :: rest =>
      if N.eqb c 101 || N.eqb c 69 then
        let '(neg, rest1) := readSign rest in
        match readDigits 10 0 O rest1 with
        | (v, S _, []) => Some (if neg then (- Z.of_N v)%Z else Z.of_N v)
        | _ => None
        end
      else None
  end.

(** StrDecimalLiteral without its sign. *)
Definition unsignedDecimal (neg : bool) (s : jsstring) : number :=
  if list_eq_dec N.eq_dec s (u16 "Infinity"%string) then S754_infinity neg
  else
    let '(ip, ni, rest) := readDigits 10 0 O s in
    let '(m, nf, rest1) :=
      match rest with
      | 46 :: after => readDigits 10 ip O after
      | _ => (ip, O, rest)
      end in
    match (ni + nf)%nat with
    | O => NaN
    | S _ =>
        match readExponent rest1 with
        | Some e => ofDecimal neg m (e - Z.of_nat nf)%Z
        | None => NaN
        end
    end.

(** NonDecimalIntegerLiteral: [0x], [0o] or [0b] and at least one digit. *)
Definition nonDecimal (s : jsstring) : option number :=
  match s with
  | 48 :: p :: digits =>
      let base :=
        if N.eqb p 120 || N.eqb p 88 then Some 16
        else if N.eqb p 111 || N.eqb p 79 then Some 8
        else if N.eqb p 98 || N.eqb p 66 then Some 2
        else None in
      match base with
      | Some b =>
          match readDigits b 0 O digits with
          | (v, S _, []) => Some (ofZ (Z.of_N v))
          | _ => Some NaN
          end
      | None => None
      end
  | _ => None
  end.

Definition StringToNumber (s : jsstring) : number :=
  match trim s with
  | [] => zero
  | t =>
      match nonDecimal t with
      | Some n => n
      | None => let '(neg, rest) := readSign t in unsignedDecimal neg rest
      end
  end.

(** The values a form field can hold. *)
Inductive jsvalue : Type :=
  | VUndefined
  | VNull
  | VBoolean (b : bool)
  | VNumber (n : number)
  | VString (s : jsstring).

(** [Number(value)] *)
Definition Number (v : jsvalue) : number :=
  match v with
  | VUndefined => NaN
  | VNull => zero
  | VBoolean b => if b then ofZ 1 else zero
  | VNumber n => n
  | VString s => StringToNumber s
  end.

End JS.

(* ================================================================= *)
(** ** The form state and the request payload (App.jsx) *)

(** The state held by the [App] component: [useState] cells [pi],
    [stationTypes], [handovers], [districts].  Inputs write
    [e.target.value], a string, into a field; the initial rows and the rows
    appended by [addStationType] and [addHandover] hold numeric ids. *)
Module Form.

Record StationTypeRow : Type := {
  st_id : JS.jsvalue;
  st_coverageArea : JS.jsvalue;
  st_handoverMin : JS.jsvalue;
  st_handoverMax : JS.jsvalue }.

Record HandoverRow : Type := {
  h_stationTypeId : JS.jsvalue;
  h_value : JS.jsvalue }.

Record DistrictRow : Type := {
  d_id : JS.jsstring;
  d_area : JS.jsvalue;
  d_k : JS.jsvalue;
  d_stations : JS.jsstring }.

Record State : Type := {
  pi : JS.jsstring;
  stationTypes : list StationTypeRow;
  handovers : list HandoverRow;
  districts : list DistrictRow }.

End Form.

(** The object posted to [/api/v1/calculate]. *)
Module Payload.

Record StationType : Type := {
  st_id : JS.number;
  st_coverageArea : JS.number;
  st_handoverMin : JS.number;
  st_handoverMax : JS.number }.

Record Handover : Type := {
  h_stationTypeId : JS.number;
  h_value : JS.number }.

Record District : Type := {
  d_id : JS.jsstring;
  d_area : JS.number;
  d_k : JS.number;
  d_stations : list JS.number }.

Record t : Type := {
  pi : JS.number;
  stationTypes : list StationType;
  handovers : list Handover;
  districts : list District }.

(** Every number of the payload, field by field. *)
Definition numbers (p : t) : list JS.number :=
  pi p
  :: flat_map (fun st => [st_id st; st_coverageArea st;
                          st_handoverMin st; st_handoverMax st])
       (stationTypes p)
  ++ flat_map (fun h => [h_stationTypeId h; h_value h]) (handovers p)
  ++ flat_map (fun d => d_area d :: d_k d :: d_stations d) (districts p).

End Payload.

(** The first [App] component (lines 1-510 of App.jsx). *)
Module App1.
Import JS.

(** [function toNumber(value, fallback = 0)]; [None] is an omitted
    second argument. *)
Definition toNumber (value : jsvalue) (fallback : option number) : number :=
  let fallback := match fallback with Some f => f | None => zero end in
  let n := Number value in
  if isFinite n then n else fallback.

Definition parseStations (value : jsstring) : list number :=
  filter (fun n => isFinite n)
    (map (fun part => Number (VString (trim part)))
       (split (cu ","%char) value)).

Definition totalStations (districts : list Form.DistrictRow) : nat :=
  fold_left
    (fun acc d => (acc + List.length (parseStations (Form.d_stations d)))%nat)
    districts O.

Definition buildPayloadFromForm (s : Form.State) : Payload.t :=
  {| Payload.pi := toNumber (VString (Form.pi s)) (Some Math_PI);
     Payload.stationTypes :=
       map (fun st =>
              {| Payload.st_id := toNumber (Form.st_id st) None;
                 Payload.st_coverageArea :=
                   toNumber (Form.st_coverageArea st) None;
                 Payload.st_handoverMin :=
                   toNumber (Form.st_handoverMin st) None;
                 Payload.st_handoverMax :=
                   toNumber (Form.st_handoverMax st) None |})
           (Form.stationTypes s);
     Payload.handovers :=
       map (fun h =>
              {| Payload.h_stationTypeId :=
                   toNumber (Form.h_stationTypeId h) None;
                 Payload.h_value := toNumber (Form.h_value h) None |})
           (Form.handovers s);
     Payload.districts :=
       map (fun d =>
              {| Payload.d_id := Form.d_id d;
                 Payload.d_area := toNumber (Form.d_area d) None;
                 Payload.d_k := toNumber (Form.d_k d) None;
                 Payload.d_stations := parseStations (Form.d_stations d) |})
           (Form.districts s) |}.

End App1.

(** The second [App] component (lines 511-878 of App.jsx), which declares
    its own helpers and builds the payload inside [handleSubmit]. *)
Module App2.
Import JS.

Definition toNumber (value : jsvalue) (fallback : option number) : number :=
  let fallback := match fallback with Some f => f | None => zero end in
  let n := Number value in
  if isFinite n then n else fallback.

Definition parseStations (value : jsstring) : list number :=
  filter (fun n => isFinite n)
    (map (fun part => Number (VString (trim part)))
       (split (cu ","%char) value)).

(** The object bound to [payload] in [handleSubmit]. *)
Definition handleSubmit_payload (s : Form.State) : Payload.t :=
  {| Payload.pi := toNumber (VString (Form.pi s)) (Some Math_PI);
     Payload.stationTypes :=
       map (fun st =>
              {| Payload.st_id := toNumber (Form.st_id st) None;
                 Payload.st_coverageArea :=
                   toNumber (Form.st_coverageArea st) None;
                 Payload.st_handoverMin :=
                   toNumber (Form.st_handoverMin st) None;
                 Payload.st_handoverMax :=
                   toNumber (Form.st_handoverMax st) None |})
           (Form.stationTypes s);
     Payload.handovers :=
       map (fun h =>
              {| Payload.h_stationTypeId :=
                   toNumber (Form.h_stationTypeId h) None;
                 Payload.h_value := toNumber (Form.h_value h) None |})
           (Form.handovers s);
     Payload.districts :=
       map (fun d =>
              {| Payload.d_id := Form.d_id d;
                 Payload.d_area := toNumber (Form.d_area d) None;
                 Payload.d_k := toNumber (Form.d_k d) None;
                 Payload.d_stations := parseStations (Form.d_stations d) |})
           (Form.districts s) |}.

End App2.

(** [toNumber] on an arbitrary JavaScript value.  [JS.jsvalue] holds the
    values a form field can hold, and [Number(value)] returns for each of
    them.  The other values of the language are added here: a [BigInt], a
    [Symbol], and an object, which [Number] converts through its primitive
    value (the outcome of its [Symbol.toPrimitive], [valueOf] or
    [toString] method). *)
Module Any.
Import JS.

Inductive primitive : Type :=
  | Plain (v : jsvalue)
  | BigInt (z : Z)
  | Symbol.

(** A value: a primitive, or an object with the outcome of its conversion
    to a primitive; [None] when that conversion throws. *)
Inductive t : Type :=
  | Primitive (p : primitive)
  | Object (toPrimitive : option primitive).

(** [Number(value)]; [None] is a thrown exception: the [TypeError] of
    converting a [Symbol], or what the conversion of an object throws. *)
Definition Number (value : t) : option number :=
  let ofPrimitive p :=
    match p with
    | Plain v => Some (JS.Number v)
    | BigInt z => Some (ofZ z)
    | Symbol => None
    end in
  match value with
  | Primitive p => ofPrimitive p
  | Object (Some p) => ofPrimitive p
  | Object None => None
  end.

(** [function toNumber(value, fallback = 0)] (the same text in both
    components) on any value.  The function has no [try]: an exception of
    [Number(value)] leaves it, and nothing is returned ([None]). *)
Definition toNumber (value : t) (fallback : option number) : option number :=
  let fallback := match fallback with Some f => f | None => zero end in
  match Number value with
  | Some n => Some (if isFinite n then n else fallback)
  | None => None
  end.

End Any.

(** The stations list as the description words it: the tokens are visited
    in order; a token whose trimmed text converts to a finite number yields
    that number, any other token yields nothing. *)
Fixpoint finiteTokens (tokens : list JS.jsstring) : list JS.number :=
  match tokens with
  | [] => []
  | t :: rest =>
      let n := JS.Number (JS.VString (JS.trim t)) in
      if JS.isFinite n then n :: finiteTokens rest else finiteTokens rest
  end.

(** The fallback in force for a call of [toNumber]. *)
Definition fallbackOf (fallback : option JS.number) : JS.number :=
  match fallback with Some f => f | None => JS.zero end.

Local Open Scope string_scope.

(** The initial state of the form (both components). *)
Definition initialState : Form.State :=
  let str s := JS.VString (JS.u16 s) in
  let num z := JS.VNumber (JS.ofZ z) in
  {| Form.pi := JS.u16 "3.141592653589793";
     Form.stationTypes :=
       [ {| Form.st_id := num 1%Z; Form.st_coverageArea := str "10.0";
            Form.st_handoverMin := str "12"; Form.st_handoverMax := str "18" |};
         {| Form.st_id := num 2%Z; Form.st_coverageArea := str "15.0";
            Form.st_handoverMin := str "10"; Form.st_handoverMax := str "16" |};
         {| Form.st_id := num 3%Z; Form.st_coverageArea := str "20.0";
            Form.st_handoverMin := str "11"; Form.st_handoverMax := str "17" |} ];
     Form.handovers :=
       [ {| Form.h_stationTypeId := num 1%Z; Form.h_value := str "14" |};
         {| Form.h_stationTypeId := num 2%Z; Form.h_value := str "12" |};
         {| Form.h_stationTypeId := num 3%Z; Form.h_value := str "15" |} ];
     Form.districts :=
       [ {| Form.d_id := JS.u16 "admir"; Form.d_area := str "50.0";
            Form.d_k := str "1.21"; Form.d_stations := JS.u16 "1,2,2,3" |} ] |}.

(* ================================================================= *)
(** ** The calculation service *)

(** Modelled from the spec: the validator, the external handover resolver,
    the calculation engine and the request pipeline.  The service is the
    Python package [src.api] / [src.calculator] / [src.models] that
    README.md documents; none of it is among the sources, so every
    definition of this module follows the written description, with the
    formulas and the validation rules of README.md.  Floating-point values
    are idealised as real numbers. *)
Module Engine.

Local Open Scope R_scope.

(** *** Domain model *)

(** Modelled from the spec: section 3, StationType: a station category with
    its coverage area S and the bounds of its handover range; the id is an
    integer, the other fields are floats, here reals. *)
Record StationType : Type := {
  id : Z;
  coverageArea : R;
  handoverMin : R;
  handoverMax : R }.

(** Modelled from the spec: section 3, HandoverEntry: the handover value
    supplied for a station-type id. *)
Record HandoverEntry : Type := {
  stationTypeId : Z;
  value : R }.

(** Modelled from the spec: section 3, DistrictInput: id (the result key,
    [d_id] here), area s, buildup coefficient k and the ordered station-type
    ids, duplicates allowed. *)
Record DistrictInput : Type := {
  d_id : string;
  area : R;
  k : R;
  stations : list Z }.

(** Modelled from the spec: section 3, CalculationRequest: the caller's pi
    and the three lists. *)
Record CalculationRequest : Type := {
  pi : R;
  stationTypes : list StationType;
  handovers : list HandoverEntry;
  districts : list DistrictInput }.

(** Modelled from the spec: section 3, DistrictResult: the output record of
    one district, [n] and [handoverAvg] rounded to two decimals. *)
Record DistrictResult : Type := {
  districtId : string;
  n : R;
  handoverAvg : R;
  handoverAdjusted : bool }.

(** Modelled from the spec: section 3, CalculationResponse: the district
    records in input order and the total. *)
Record CalculationResponse : Type := {
  districtResults : list DistrictResult;
  totalN : R }.

(** *** Failures *)

(** Modelled from the spec: section 4.1 and 4.2, the rule violated and the
    offending entity; one constructor per rule of the validator, and the
    missing handover of the resolver. *)
Inductive ValidationError : Type :=
  | NonPositiveArea (district : string)
  | NonPositiveK (district : string)
  | TooFewStations (district : string)
  | NonPositiveCoverageArea (stationType : Z)
  | DuplicateStationType (stationType : Z)
  | UnknownStationType (district : string) (stationType : Z)
  | NoHandoverData (stationType : Z).

(** Modelled from the spec: section 7, the three failure kinds: validation,
    resolution (external source unreachable or malformed) and computation.
    *)
Inductive Failure : Type :=
  | Validation (e : ValidationError)
  | Resolution (stationType : Z)
  | Computation (district : string).

(** Modelled from the spec: the district a validation error identifies. *)
Definition errorDistrict (e : ValidationError) : option string :=
  match e with
  | NonPositiveArea d | NonPositiveK d | TooFewStations d
  | UnknownStationType d _ => Some d
  | _ => None
  end.

(** Modelled from the spec: the station-type id a validation error names. *)
Definition errorStationType (e : ValidationError) : option Z :=
  match e with
  | NonPositiveCoverageArea i | DuplicateStationType i
  | UnknownStationType _ i | NoHandoverData i => Some i
  | _ => None
  end.

(** *** Lookups *)

(** Modelled from the spec: the StationType a station-type id resolves to
    (ids are unique in a valid request). *)
Definition findStationType (sts : list StationType) (i : Z)
  : option StationType :=
  find (fun st => Z.eqb (id st) i) sts.

(** Modelled from the spec: section 4.3, the effective handover map,
    station-type id to handover value. *)
Definition HandoverMap : Type := list (Z * R).

(** Modelled from the spec: lookup in the effective handover map. *)
Fixpoint handoverOf (m : HandoverMap) (i : Z) : option R :=
  match m with
  | [] => None
  | (j, v) :: rest => if Z.eqb j i then Some v else handoverOf rest i
  end.

(** Modelled from the spec: the map given by the request's own handovers
    list. *)
Definition localHandovers (hs : list HandoverEntry) : HandoverMap :=
  map (fun h => (stationTypeId h, value h)) hs.

(** Modelled from the spec: all-or-nothing traversal, used where the engine
    needs every occurrence resolved. *)
Fixpoint allSome {A B : Type} (f : A -> option B) (l : list A)
  : option (list B) :=
  match l with
  | [] => Some []
  | a :: rest =>
      match f a, allSome f rest with
      | Some b, Some bs => Some (b :: bs)
      | _, _ => None
      end
  end.

(** Modelled from the spec: the ids of a list, each once, in order of first
    appearance. *)
Fixpoint distinct (l : list Z) : list Z :=
  match l with
  | [] => []
  | x :: rest => x :: filter (fun y => negb (Z.eqb y x)) (distinct rest)
  end.

(** *** Validator (section 4.1) *)

(** Modelled from the spec: section 4.1, "report the first failure
    encountered": the first failure met while scanning [l]. *)
Fixpoint firstError {A : Type} (check : A -> option ValidationError)
  (l : list A) : option ValidationError :=
  match l with
  | [] => None
  | a :: rest =>
      match check a with
      | Some e => Some e
      | None => firstError check rest
      end
  end.

(** Modelled from the spec: section 4.1, the rules of one district: area >
    0, k > 0, at least 3 entries in stations (duplicates counting). *)
Definition checkDistrict (d : DistrictInput) : option ValidationError :=
  if Rlt_dec 0 (area d) then
    if Rlt_dec 0 (k d) then
      if (List.length (stations d) <? 3)%nat
      then Some (TooFewStations (d_id d))
      else None
    else Some (NonPositiveK (d_id d))
  else Some (NonPositiveArea (d_id d)).

(** Modelled from the spec: section 4.1, coverageArea > 0. *)
Definition checkStationType (st : StationType) : option ValidationError :=
  if Rlt_dec 0 (coverageArea st) then None
  else Some (NonPositiveCoverageArea (id st)).

(** Modelled from the spec: section 4.1, no duplicate StationType ids. *)
Fixpoint checkDuplicates (ids : list Z) : option ValidationError :=
  match ids with
  | [] => None
  | i :: rest =>
      if existsb (Z.eqb i) rest then Some (DuplicateStationType i)
      else checkDuplicates rest
  end.

(** Modelled from the spec: section 4.1 and README, every id of a district's
    stations list is a known StationType. *)
Definition checkReferences (sts : list StationType) (d : DistrictInput)
  : option ValidationError :=
  firstError
    (fun i => match findStationType sts i with
              | Some _ => None
              | None => Some (UnknownStationType (d_id d) i)
              end)
    (stations d).

(** Modelled from the spec: the earlier failure wins. *)
Definition orElse (a b : option ValidationError) : option ValidationError :=
  match a with Some e => Some e | None => b end.

(** Modelled from the spec: the validator of the Python service ([src.api],
    not among the sources), section 4.1: [None] is "valid", otherwise the
    single first failure, scanning districts first, then station types, then
    the references. *)
Definition validate (req : CalculationRequest) : option ValidationError :=
  orElse (firstError checkDistrict (districts req))
  (orElse (firstError checkStationType (stationTypes req))
  (orElse (checkDuplicates (map id (stationTypes req)))
          (firstError (checkReferences (stationTypes req))
                      (districts req)))).

(** *** External handover resolver (section 4.2) *)

(** Modelled from the spec: section 4.2 and 6, the outcomes of one external
    lookup: a value, "not found", or any other failure to reach the source.
    *)
Inductive Lookup : Type :=
  | Found (v : R)
  | NotFound
  | Unreachable.

(** Modelled from the spec: section 6, the configuration: the external
    source keyed by station-type id, [None] when no base address is
    configured. *)
Definition Source : Type := option (Z -> Lookup).

(** Modelled from the spec: section 4.2, the handover value of one
    station-type id: the local entry, else one lookup when a source is
    configured; without a source, and on "not found", a validation failure
    naming the id; any other lookup failure is a resolution failure. *)
Definition resolveOne (src : Source) (local : HandoverMap) (i : Z)
  : Failure + R :=
  match handoverOf local i with
  | Some v => inr v
  | None =>
      match src with
      | None => inl (Validation (NoHandoverData i))
      | Some lookup =>
          match lookup i with
          | Found v => inr v
          | NotFound => inl (Validation (NoHandoverData i))
          | Unreachable => inl (Resolution i)
          end
      end
  end.

(** Modelled from the spec: section 4.2, every id is resolved or the whole
    resolution fails; no partial map is produced. *)
Fixpoint resolveAll (src : Source) (local : HandoverMap) (ids : list Z)
  : Failure + HandoverMap :=
  match ids with
  | [] => inr []
  | i :: rest =>
      match resolveOne src local i with
      | inl f => inl f
      | inr v =>
          match resolveAll src local rest with
          | inl f => inl f
          | inr m => inr ((i, v) :: m)
          end
      end
  end.

(** Modelled from the spec: section 4.2, every id referenced by a district,
    once, in scan order. *)
Definition referencedIds (req : CalculationRequest) : list Z :=
  distinct (flat_map stations (districts req)).

(** Modelled from the spec: the handover resolver of the Python service (not
    among the sources), section 4.2: the effective handover map of a
    request. *)
Definition resolveHandovers (src : Source) (req : CalculationRequest)
  : Failure + HandoverMap :=
  resolveAll src (localHandovers (handovers req)) (referencedIds req).

(** *** Calculation engine (section 4.3) *)

(** Modelled from the spec: the sum of a list of values. *)
Definition Rsum (l : list R) : R := fold_right Rplus 0 l.

(** Modelled from the spec: the arithmetic mean. *)
Definition mean (l : list R) : R := Rsum l / INR (List.length l).

(** Modelled from the spec: rounding to the nearest integer, a tie going to
    the even neighbour. *)
Definition roundHalfEven (x : R) : Z :=
  let f := (up x - 1)%Z in
  if Rlt_dec (x - IZR f) (1 / 2) then f
  else if Rlt_dec (1 / 2) (x - IZR f) then (f + 1)%Z
  else if Z.even f then f else (f + 1)%Z.

(** Modelled from the spec: the rounding of the output values (done in the
    missing [src.calculator]), section 4.3 step 6: rounding to 2 decimal
    places. *)
Definition round2 (x : R) : R := IZR (roundHalfEven (x * 100)) / 100.

Section District.

Variable pi : R.

(** Modelled from the spec: section 4.3 step 2, [Ri = sqrt(coverageArea_i /
    pi)]. *)
Definition radius (st : StationType) : R := sqrt (coverageArea st / pi).

(** Modelled from the spec: section 4.3 step 1, [R0 = sqrt(area / pi)]. *)
Definition R0 (d : DistrictInput) : R := sqrt (area d / pi).

(** Modelled from the spec: section 4.3 step 2, [Li = k * (R0 / Ri)^2] of
    one occurrence. *)
Definition Li (d : DistrictInput) (st : StationType) : R :=
  k d * (R0 d / radius st) ^ 2.

(** Modelled from the spec: section 4.3 step 2, [L], the mean of [Li] over
    the occurrences. *)
Definition L (d : DistrictInput) (occ : list StationType) : R :=
  mean (map (Li d) occ).

(** Modelled from the spec: section 4.3 step 3, insertion by descending
    radius; the inserted occurrence goes ahead of the occurrences of the
    same radius already placed, which come later in the district's list
    ("first-seen wins"). *)
Fixpoint insertByRadius (x : StationType) (l : list StationType)
  : list StationType :=
  match l with
  | [] => [x]
  | y :: rest =>
      if Rle_dec (radius y) (radius x) then x :: l
      else y :: insertByRadius x rest
  end.

(** Modelled from the spec: section 4.3 step 3, the occurrences by
    descending radius. *)
Definition sortByRadius (occ : list StationType) : list StationType :=
  fold_right insertByRadius [] occ.

(** Modelled from the spec: section 4.3 step 3, the three largest radii. *)
Definition top3 (occ : list StationType) : list StationType :=
  firstn 3 (sortByRadius occ).


(** Modelled from the spec: section 4.3 step 3, [Dj = 2 * Rj]. *)
Definition D (st : StationType) : R := 2 * radius st.

(** Modelled from the spec: section 4.3 step 3, [C = D1^(5/2) + D2^(3/2) +
    D3^(1/2)]; undefined below three occurrences. *)
Definition C (occ : list StationType) : option R :=
  match top3 occ with
  | [s1; s2; s3] =>
      Some (Rpower (D s1) (5 / 2) + Rpower (D s2) (3 / 2)
            + Rpower (D s3) (1 / 2))
  | _ => None
  end.

(** Modelled from the spec: section 4.3 step 5, [handoverAvg], the
    arithmetic mean of the effective handover values, one value for each
    distinct station type of the district. *)
Definition Havg (values : list R) : R := mean values.

(** Modelled from the spec: section 4.3 step 5, the average is strictly
    below the [handoverMin] of a station type. *)
Definition belowMin (h : R) (st : StationType) : bool :=
  if Rlt_dec h (handoverMin st) then true else false.

(** Modelled from the spec: the per-district part of
    [src.calculator.calculate] (not among the sources), section 4.3 steps 1
    to 6: the output record and the full-precision [n].  [L] and [C] are
    taken over the occurrences [stations d], the handover average over the
    distinct station types [distinct (stations d)].  A zero [C], or a
    station type left unresolved, is a computation failure; over the real
    numbers a validated district never has a zero [C], and the divisions
    and square roots, which are total here, are the service's own only for
    a positive [pi]. *)
Definition calculateDistrict (sts : list StationType) (m : HandoverMap)
  (d : DistrictInput) : Failure + (DistrictResult * R) :=
  match allSome (findStationType sts) (stations d),
        allSome (handoverOf m) (distinct (stations d)) with
  | Some occ, Some values =>
      match C occ with
      | Some c =>
          if Req_dec_T c 0 then inl (Computation (d_id d))
          else
            let n0 := L d occ / c in
            let h := Havg values in
            let adjusted := existsb (belowMin h) occ in
            let nFull := if adjusted then n0 * (14 / 10) else n0 in
            inr ({| districtId := d_id d;
                    n := round2 nFull;
                    handoverAvg := round2 h;
                    handoverAdjusted := adjusted |}, nFull)
      | None => inl (Computation (d_id d))
      end
  | _, _ => inl (Computation (d_id d))
  end.

(** Modelled from the spec: section 4.3, the districts in input order; one
    failure fails the request. *)
Fixpoint calculateDistricts (sts : list StationType) (m : HandoverMap)
  (ds : list DistrictInput) : Failure + list (DistrictResult * R) :=
  match ds with
  | [] => inr []
  | d :: rest =>
      match calculateDistrict sts m d with
      | inl f => inl f
      | inr r =>
          match calculateDistricts sts m rest with
          | inl f => inl f
          | inr rs => inr (r :: rs)
          end
      end
  end.

End District.

(** Modelled from the spec: section 4.3, the per-district records with their
    full-precision [n]. *)
Definition fullPrecision (req : CalculationRequest) (m : HandoverMap)
  : Failure + list (DistrictResult * R) :=
  calculateDistricts (pi req) (stationTypes req) m (districts req).

(** Modelled from the spec: the aggregate of the missing [src.calculator],
    section 4.3: [totalN] is the sum of the full-precision values, rounded
    once. *)
Definition respond (rs : list (DistrictResult * R)) : CalculationResponse :=
  {| districtResults := map fst rs;
     totalN := round2 (Rsum (map snd rs)) |}.

(** Modelled from the spec: [src.calculator.calculate] (not among the
    sources), section 4.3: validated request and effective handover map to
    response. *)
Definition calculate (req : CalculationRequest) (m : HandoverMap)
  : Failure + CalculationResponse :=
  match fullPrecision req m with
  | inl f => inl f
  | inr rs => inr (respond rs)
  end.

(** *** The request pipeline: validate, resolve, compute *)

Section Pipeline.

Variable engine :
  CalculationRequest -> HandoverMap -> Failure + CalculationResponse.

(** Modelled from the spec: the request handler of [src.api] (not among the
    sources), sections 2 and 5: the pipeline validate, resolve, compute
    around an engine; a validation or resolution failure ends the request
    before the engine. *)
Definition handle (src : Source) (req : CalculationRequest)
  : Failure + CalculationResponse :=
  match validate req with
  | Some e => inl (Validation e)
  | None =>
      match resolveHandovers src req with
      | inl f => inl f
      | inr m => engine req m
      end
  end.

End Pipeline.

(** Modelled from the spec: the pipeline with the calculation engine. *)
Definition process : Source -> CalculationRequest
  -> Failure + CalculationResponse :=
  handle calculate.


(** *** The example of README.md *)

(** README.md, request example: its district. *)
Definition readmeDistrict : DistrictInput :=
  {| d_id := "admir"; area := 50; k := 121 / 100;
     stations := [1; 2; 2; 3]%Z |}.

(** README.md, request example. *)
Definition readmeRequest : CalculationRequest :=
  {| pi := 3141592653589793 / 1000000000000000;
     stationTypes :=
       [ {| id := 1; coverageArea := 10; handoverMin := 12; handoverMax := 18 |};
         {| id := 2; coverageArea := 15; handoverMin := 10; handoverMax := 16 |};
         {| id := 3; coverageArea := 20; handoverMin := 11; handoverMax := 17 |} ];
     handovers :=
       [ {| stationTypeId := 1; value := 14 |};
         {| stationTypeId := 2; value := 12 |};
         {| stationTypeId := 3; value := 15 |} ];
     districts := [ readmeDistrict ] |}.


(** *** Further requests used as test inputs *)

(** A station type whose radius is 1/2 for the value of pi above, and
    districts of radius 1 served by three such stations: [C] is 3 and
    [n] is 0.004. *)
Definition smallType : StationType :=
  {| id := 1; coverageArea := 78539816339744825 / 100000000000000000;
     handoverMin := 12; handoverMax := 18 |}.

Definition smallDistrict (name : string) : DistrictInput :=
  {| d_id := name; area := 3141592653589793 / 1000000000000000;
     k := 3 / 1000; stations := [1; 1; 1]%Z |}.

Definition smallRequest : CalculationRequest :=
  {| pi := 3141592653589793 / 1000000000000000;
     stationTypes := [smallType];
     handovers := [ {| stationTypeId := 1; value := 14 |} ];
     districts := [ smallDistrict "a"; smallDistrict "b";
                    smallDistrict "c"; smallDistrict "d" ] |}.

(** What the engine computes for such a district: the output record and
    the full-precision [n]. *)
Definition smallResult (name : string) : DistrictResult * R :=
  ({| districtId := name; n := 0; handoverAvg := 14;
      handoverAdjusted := false |}, 4 / 1000).

(** Two districts with two stations each. *)
Definition shortDistrict (name : string) : DistrictInput :=
  {| d_id := name; area := 50; k := 1; stations := [1; 1]%Z |}.

Definition twoShortRequest : CalculationRequest :=
  {| pi := 3141592653589793 / 1000000000000000;
     stationTypes := [smallType];
     handovers := [ {| stationTypeId := 1; value := 14 |} ];
     districts := [ shortDistrict "north"; shortDistrict "south" ] |}.

(** One district over two station types, neither with a handover entry. *)
Definition noHandoverRequest : CalculationRequest :=
  {| pi := 3141592653589793 / 1000000000000000;
     stationTypes :=
       [ {| id := 7; coverageArea := 10; handoverMin := 12; handoverMax := 18 |};
         {| id := 8; coverageArea := 15; handoverMin := 10; handoverMax := 16 |} ];
     handovers := [];
     districts :=
       [ {| d_id := "demo"; area := 50; k := 11 / 10;
            stations := [7; 8; 7]%Z |} ] |}.

End Engine.

(* ================================================================= *)
(** ** The state handlers of the [App] component (App.jsx) *)

(** The handlers are the same in both components (lines 98-141 and
    562-605); [toggleTheme] and [handleJsonFile] belong to the first. *)
Module Handlers.
Import JS.

(** [prev.map((item, idx) => f(item, idx))], from index [idx] on. *)
Fixpoint mapFrom {A B : Type} (f : A -> nat -> B) (idx : nat) (l : list A)
  : list B :=
  match l with
  | [] => []
  | item :: rest => f item idx :: mapFrom f (S idx) rest
  end.

(** [prev.map((item, idx) => idx === index ? change(item) : item)] *)
Definition changeAt {A : Type} (index : nat) (change : A -> A)
  (prev : list A) : list A :=
  mapFrom (fun item idx => if Nat.eqb idx index then change item else item)
    O prev.

(** The field names the inputs pass to the handlers. *)
Inductive StationTypeField : Type :=
  | id | coverageArea | handoverMin | handoverMax.

Inductive HandoverField : Type := stationTypeId | value.

Inductive DistrictField : Type := d_id | area | k | stations.

(** [{ ...item, [field]: value }]; [value] is the [e.target.value] of an
    input, a string. *)
Definition setStationTypeField (field : StationTypeField) (value : jsstring)
  (item : Form.StationTypeRow) : Form.StationTypeRow :=
  match field with
  | id =>
      {| Form.st_id := VString value;
         Form.st_coverageArea := Form.st_coverageArea item;
         Form.st_handoverMin := Form.st_handoverMin item;
         Form.st_handoverMax := Form.st_handoverMax item |}
  | coverageArea =>
      {| Form.st_id := Form.st_id item;
         Form.st_coverageArea := VString value;
         Form.st_handoverMin := Form.st_handoverMin item;
         Form.st_handoverMax := Form.st_handoverMax item |}
  | handoverMin =>
      {| Form.st_id := Form.st_id item;
         Form.st_coverageArea := Form.st_coverageArea item;
         Form.st_handoverMin := VString value;
         Form.st_handoverMax := Form.st_handoverMax item |}
  | handoverMax =>
      {| Form.st_id := Form.st_id item;
         Form.st_coverageArea := Form.st_coverageArea item;
         Form.st_handoverMin := Form.st_handoverMin item;
         Form.st_handoverMax := VString value |}
  end.

Definition setHandoverField (field : HandoverField) (value : jsstring)
  (item : Form.HandoverRow) : Form.HandoverRow :=
  match field with
  | stationTypeId =>
      {| Form.h_stationTypeId := VString value;
         Form.h_value := Form.h_value item |}
  | value =>
      {| Form.h_stationTypeId := Form.h_stationTypeId item;
         Form.h_value := VString value |}
  end.

Definition setDistrictField (field : DistrictField) (value : jsstring)
  (item : Form.DistrictRow) : Form.DistrictRow :=
  match field with
  | d_id =>
      {| Form.d_id := value;
         Form.d_area := Form.d_area item;
         Form.d_k := Form.d_k item;
         Form.d_stations := Form.d_stations item |}
  | area =>
      {| Form.d_id := Form.d_id item;
         Form.d_area := VString value;
         Form.d_k := Form.d_k item;
         Form.d_stations := Form.d_stations item |}
  | k =>
      {| Form.d_id := Form.d_id item;
         Form.d_area := Form.d_area item;
         Form.d_k := VString value;
         Form.d_stations := Form.d_stations item |}
  | stations =>
      {| Form.d_id := Form.d_id item;
         Form.d_area := Form.d_area item;
         Form.d_k := Form.d_k item;
         Form.d_stations := value |}
  end.

Definition withStationTypes (s : Form.State)
  (rows : list Form.StationTypeRow) : Form.State :=
  {| Form.pi := Form.pi s; Form.stationTypes := rows;
     Form.handovers := Form.handovers s;
     Form.districts := Form.districts s |}.

Definition withHandovers (s : Form.State) (rows : list Form.HandoverRow)
  : Form.State :=
  {| Form.pi := Form.pi s; Form.stationTypes := Form.stationTypes s;
     Form.handovers := rows; Form.districts := Form.districts s |}.

Definition withDistricts (s : Form.State) (rows : list Form.DistrictRow)
  : Form.State :=
  {| Form.pi := Form.pi s; Form.stationTypes := Form.stationTypes s;
     Form.handovers := Form.handovers s; Form.districts := rows |}.

(** [handleStationTypeChange(index, field, value)]: the state after
    [setStationTypes]. *)
Definition handleStationTypeChange (index : nat) (field : StationTypeField)
  (value : jsstring) (s : Form.State) : Form.State :=
  withStationTypes s
    (changeAt index (setStationTypeField field value) (Form.stationTypes s)).

Definition handleHandoverChange (index : nat) (field : HandoverField)
  (value : jsstring) (s : Form.State) : Form.State :=
  withHandovers s
    (changeAt index (setHandoverField field value) (Form.handovers s)).

Definition handleDistrictChange (index : nat) (field : DistrictField)
  (value : jsstring) (s : Form.State) : Form.State :=
  withDistricts s
    (changeAt index (setDistrictField field value) (Form.districts s)).

(** The decimal digits of a numeral, as code units. *)
Fixpoint digits (d : Decimal.uint) : jsstring :=
  match d with
  | Decimal.Nil => []
  | Decimal.D0 d => 48%N :: digits d
  | Decimal.D1 d => 49%N :: digits d
  | Decimal.D2 d => 50%N :: digits d
  | Decimal.D3 d => 51%N :: digits d
  | Decimal.D4 d => 52%N :: digits d
  | Decimal.D5 d => 53%N :: digits d
  | Decimal.D6 d => 54%N :: digits d
  | Decimal.D7 d => 55%N :: digits d
  | Decimal.D8 d => 56%N :: digits d
  | Decimal.D9 d => 57%N :: digits d
  end.

(** The text of a count (an array length or a length plus one), as a
    template literal prints it. *)
Definition decimal (n : nat) : jsstring := digits (Nat.to_uint n).

(** [prev.length + 1], a number. *)
Definition nextId {A : Type} (prev : list A) : jsvalue :=
  VNumber (ofZ (Z.of_nat (List.length prev) + 1)).

Definition addStationType (s : Form.State) : Form.State :=
  withStationTypes s
    (Form.stationTypes s
     ++ [ {| Form.st_id := nextId (Form.stationTypes s);
             Form.st_coverageArea := VString (u16 "10");
             Form.st_handoverMin := VString (u16 "10");
             Form.st_handoverMax := VString (u16 "18") |} ]).

Definition addHandover (s : Form.State) : Form.State :=
  withHandovers s
    (Form.handovers s
     ++ [ {| Form.h_stationTypeId := nextId (Form.handovers s);
             Form.h_value := VString (u16 "12") |} ]).

Definition addDistrict (s : Form.State) : Form.State :=
  withDistricts s
    (Form.districts s
     ++ [ {| Form.d_id :=
               cu "d" :: decimal (S (List.length (Form.districts s)));
             Form.d_area := VString (u16 "40.0");
             Form.d_k := VString (u16 "1.0");
             Form.d_stations := u16 "1,1,1" |} ]).

(** [toggleTheme]: the state after [setTheme]. *)
Definition toggleTheme (prev : jsstring) : jsstring :=
  if list_eq_dec N.eq_dec prev (u16 "theme-modern")
  then u16 "theme-guideline" else u16 "theme-modern".

(** [join(",")] of texts, the inverse reading of [split(",")]. *)
Fixpoint join (sep : N) (parts : list jsstring) : jsstring :=
  match parts with
  | [] => []
  | [p] => p
  | p :: rest => (p ++ sep :: join sep rest)%list
  end.

(** The ids of the station-type rows and of the handover rows count up
    from 1 in row order. *)
Definition numbered (s : Form.State) : Prop :=
  (forall i row, nth_error (Form.stationTypes s) i = Some row ->
                 Form.st_id row = VNumber (ofZ (Z.of_nat i + 1)))
  /\ (forall i row, nth_error (Form.handovers s) i = Some row ->
                    Form.h_stationTypeId row
                    = VNumber (ofZ (Z.of_nat i + 1))).

(** A text made of white space only (possibly empty). *)
Definition blank (ws : jsstring) : Prop :=
  Forall (fun c => isWhiteSpace c = true) ws.

End Handlers.

(* ================================================================= *)
(** ** Submitting the request (App.jsx, [handleSubmit] and
       [handleJsonFile]) *)

Module Submit.
Import JS.

Local Unset Elimination Schemes.

(** A value read from JSON. *)
Inductive json : Type :=
  | JNull
  | JBoolean (b : bool)
  | JNumber (n : number)
  | JString (s : jsstring)
  | JArray (items : list json)
  | JObject (members : list (jsstring * json)).

Local Set Elimination Schemes.

(** A thrown value, or the reason of a rejected promise, as the [catch]
    clause of [handleSubmit] reads it.  [Nullish] is [null] or
    [undefined], of which [err.message] cannot be read: the read throws a
    [TypeError].  [Raised message] is any other value whose [message] is a
    string ([Some], as for [Error] objects and [DOMException]s) or is
    missing ([None], as for a thrown string or number).  Values whose
    [message] is neither, or whose [message] is a getter that throws, are
    left out. *)
Inductive Thrown : Type :=
  | Nullish
  | Raised (message : option jsstring).

(** [new Error(text)]; [None] is an [undefined] argument, which leaves the
    message empty. *)
Definition newError (text : option jsstring) : Thrown :=
  Raised (Some (match text with Some t => t | None => [] end)).

(** The object handed to [JSON.stringify] for the request body. *)
Inductive Body : Type :=
  | FormBody (payload : Payload.t)
  | JsonBody (payload : json).

Record Request : Type := { url : jsstring; body : Body }.

(** What [handleSubmit] reads of a [Response]: [response.ok] and the
    outcome of [response.json()]. *)
Record Response : Type := { ok : bool; parsed : Thrown + json }.

(** The part of the component state that [handleSubmit] writes. *)
Record Ui : Type := { error : jsstring; result : json; loading : bool }.

(** The own member of an object read from JSON; a later member of the
    same name replaces an earlier one. *)
Fixpoint member (key : jsstring) (members : list (jsstring * json))
  : option json :=
  match members with
  | [] => None
  | (name, v) :: rest =>
      match member key rest with
      | Some later => Some later
      | None => if list_eq_dec N.eq_dec name key then Some v else None
      end
  end.

(** The fallback text of the [catch] clause ("request error", in
    Russian), as code units. *)
Definition requestFailed : jsstring :=
  [1054; 1096; 1080; 1073; 1082; 1072; 32; 1079; 1072; 1087; 1088; 1086;
   1089; 1072]%N.

(** [API_BASE] of the first component: the first non-empty of
    [VITE_BACKEND_URL] and [VITE_API_BASE], else the empty string;
    [None] is an unset variable. *)
Definition API_BASE (VITE_BACKEND_URL VITE_API_BASE : option jsstring)
  : jsstring :=
  match VITE_BACKEND_URL with
  | Some (c :: u) => c :: u
  | _ => match VITE_API_BASE with
         | Some (c :: u) => c :: u
         | _ => []
         end
  end.

Section Environment.

(** The built-ins and the network, as [handleSubmit] meets them. *)
Variable JSON_parse : jsstring -> Thrown + json.
Variable JSON_stringify : json -> jsstring.
Variable fetch : Request -> Thrown + Response.
(** The [TypeError] of reading a property of [null]. *)
Variable nullProperty : Thrown.

(** [data.detail]; [None] is [undefined]. *)
Definition detail (data : json) : Thrown + option json :=
  match data with
  | JNull => inl nullProperty
  | JObject members => inr (member (u16 "detail") members)
  | _ => inr None
  end.

(** The argument of [new Error(...)] for a response that is not ok. *)
Definition detailText (d : option json) : option jsstring :=
  match d with
  | Some (JString s) => Some s
  | Some other => Some (JSON_stringify other)
  | None => None
  end.

(** The [try] block once the payload is built: [inr data] when it reaches
    [setResult(data)], [inl err] when it throws. *)
Definition send (apiBase : jsstring) (payload : Body) : Thrown + json :=
  match fetch {| url := (apiBase ++ u16 "/api/v1/calculate")%list;
                 body := payload |} with
  | inl err => inl err
  | inr response =>
      match parsed response with
      | inl err => inl err
      | inr data =>
          if negb (ok response) then
            match detail data with
            | inl err => inl err
            | inr d => inl (newError (detailText d))
            end
          else inr data
      end
  end.

(** The state once the handler has run: [catch] and [finally], after
    [setError("")] and [setResult(null)] at the start.  For a nullish
    thrown value [err.message] throws inside the [catch] clause, so
    [setError] is not called there and the error stays empty; [finally]
    still runs. *)
Definition settle (attempt : Thrown + json) : Ui :=
  match attempt with
  | inr data => {| error := []; result := data; loading := false |}
  | inl Nullish => {| error := []; result := JNull; loading := false |}
  | inl (Raised message) =>
      {| error := match message with
                  | Some (c :: m) => c :: m
                  | _ => requestFailed
                  end;
         result := JNull;
         loading := false |}
  end.

(** [handleSubmit] of the first component. *)
Definition handleSubmit1 (apiBase : jsstring) (inputMode jsonInput : jsstring)
  (s : Form.State) : Ui :=
  settle
    (match (if list_eq_dec N.eq_dec inputMode (u16 "json")
            then match JSON_parse jsonInput with
                 | inl err => inl err
                 | inr j => inr (JsonBody j)
                 end
            else inr (FormBody (App1.buildPayloadFromForm s))) with
     | inl err => inl err
     | inr payload => send apiBase payload
     end).

(** [handleSubmit] of the second component. *)
Definition handleSubmit2 (s : Form.State) : Ui :=
  settle (send (u16 "http://localhost:8000")
            (FormBody (App2.handleSubmit_payload s))).

(** *** [handleJsonFile] *)

Variable toLowerCase : jsstring -> jsstring.

(** A [File]: its name and the outcome of [file.text()]. *)
Record File : Type := { name : jsstring; text : Thrown + jsstring }.

(** [s.endsWith(suffix)] *)
Definition endsWith (s suffix : jsstring) : bool :=
  if list_eq_dec N.eq_dec
       (skipn (List.length s - List.length suffix) s) suffix
  then Nat.leb (List.length suffix) (List.length s) else false.

(** The text shown for a file whose name does not end in [.json] (in
    Russian), as code units. *)
Definition onlyJsonFiles : jsstring :=
  [1055; 1086; 1076; 1076; 1077; 1088; 1078; 1080; 1074; 1072; 1102;
   1090; 1089; 1103; 32; 1090; 1086; 1083; 1100; 1082; 1086; 32; 46;
   106; 115; 111; 110; 32; 1092; 1072; 1081; 1083; 1099]%N.

(** The text shown when the file cannot be read (in Russian), as code
    units. *)
Definition readFailed : jsstring :=
  [1053; 1077; 32; 1091; 1076; 1072; 1083; 1086; 1089; 1100; 32; 1087;
   1088; 1086; 1095; 1080; 1090; 1072; 1090; 1100; 32; 1092; 1072; 1081;
   1083; 44; 32; 1086; 1096; 1080; 1073; 1082; 1072]%N.

(** The cells [jsonInput] and [error] after [handleJsonFile(file)];
    [None] is no file. *)
Definition handleJsonFile (file : option File)
  (jsonInput errorText : jsstring) : jsstring * jsstring :=
  match file with
  | None => (jsonInput, errorText)
  | Some f =>
      if negb (endsWith (toLowerCase (name f)) (u16 ".json"))
      then (jsonInput, onlyJsonFiles)
      else match text f with
           | inr t => (t, [])
           | inl _ => (jsonInput, readFailed)
           end
  end.

End Environment.

End Submit.

(* ================================================================= *)
(** * Properties of the form client *)

Section Client.
Import JS.

Lemma finiteTokens_filter (tokens : list jsstring) :
  finiteTokens tokens
  = filter (fun n => isFinite n)
      (map (fun part => Number (VString (trim part))) tokens).
Proof.
  induction tokens as [|t rest IH]; simpl; [reflexivity|].
  destruct (isFinite (Number (VString (trim t)))); now rewrite IH.
Qed.

Lemma split_nonempty (sep : N) (s : jsstring) : split sep s <> [].
Proof.
  destruct s as [|c rest]; simpl; [discriminate|].
  destruct (N.eqb c sep); [discriminate|].
  destruct (split sep rest); discriminate.
Qed.

Lemma filter_length_le {A : Type} (f : A -> bool) (l : list A) :
  (List.length (filter f l) <= List.length l)%nat.
Proof.
  induction l as [|a l IH]; simpl; [lia|].
  destruct (f a); simpl; lia.
Qed.

Lemma toNumber_cases (v : jsvalue) (fb : option number) :
  App1.toNumber v fb
  = if isFinite (Number v) then Number v else fallbackOf fb.
Proof. unfold App1.toNumber, fallbackOf. destruct fb; reflexivity. Qed.

Lemma toNumber_finite (v : jsvalue) (fb : option number) :
  isFinite (fallbackOf fb) = true -> isFinite (App1.toNumber v fb) = true.
Proof.
  intros Hfb. rewrite toNumber_cases.
  destruct (isFinite (Number v)) eqn:E; assumption.
Qed.

Lemma toNumber_default_finite (v : jsvalue) :
  isFinite (App1.toNumber v None) = true.
Proof. now apply toNumber_finite. Qed.

Lemma toNumber_PI_finite (v : jsvalue) :
  isFinite (App1.toNumber v (Some Math_PI)) = true.
Proof. now apply toNumber_finite. Qed.

Lemma parseStations_finite (s : jsstring) :
  Forall (fun n => isFinite n = true) (App1.parseStations s).
Proof.
  unfold App1.parseStations. apply Forall_forall. intros n Hn.
  apply filter_In in Hn. tauto.
Qed.

Lemma payload_numbers_finite (s : Form.State) :
  Forall (fun n => isFinite n = true)
    (Payload.numbers (App1.buildPayloadFromForm s)).
Proof.
  unfold Payload.numbers, App1.buildPayloadFromForm; simpl.
  constructor; [apply toNumber_PI_finite|].
  repeat rewrite Forall_app. repeat split.
  - apply Forall_flat_map, Forall_map, Forall_forall. intros st _. simpl.
    repeat constructor; apply toNumber_default_finite.
  - apply Forall_flat_map, Forall_map, Forall_forall. intros h _. simpl.
    repeat constructor; apply toNumber_default_finite.
  - apply Forall_flat_map, Forall_map, Forall_forall. intros d _. simpl.
    repeat constructor; try apply toNumber_default_finite.
    apply parseStations_finite.
Qed.

(** C8. For every input string, [parseStations] returns, in order, exactly
    the numbers of those comma-separated tokens that convert, once
    trimmed, to a finite number, and drops every other token without
    raising anything; the payload carries that list as the district's
    [stations].  So the list can be shorter than what was typed: the three
    entries "1,two,3" give two stations. *)
Theorem C8_parseStations_drops_non_finite_tokens :
  (forall s : jsstring,
      App1.parseStations s = finiteTokens (split (cu ",") s)
      /\ Forall (fun n => isFinite n = true) (App1.parseStations s)
      /\ (forall n, In n (App1.parseStations s) <->
            exists t, In t (split (cu ",") s)
                      /\ n = Number (VString (trim t))
                      /\ isFinite n = true)
      /\ (List.length (App1.parseStations s)
          <= List.length (split (cu ",") s))%nat)
  /\ (forall st : Form.State,
         map Payload.d_stations
           (Payload.districts (App1.buildPayloadFromForm st))
         = map (fun d => App1.parseStations (Form.d_stations d))
             (Form.districts st))
  /\ List.length (split (cu ",") (u16 "1,two,3")) = 3%nat
  /\ App1.parseStations (u16 "1,two,3") = [ofZ 1; ofZ 3].
Proof.
  split; [|split; [|split]].
  - intros s. split; [|split; [|split]].
    + now rewrite finiteTokens_filter.
    + apply parseStations_finite.
    + intros n. unfold App1.parseStations. rewrite filter_In, in_map_iff.
      split.
      * intros [[t [Ht Hin]] Hfin]. exists t. now repeat split.
      * intros [t [Hin [Ht Hfin]]]. split; [exists t; now split | exact Hfin].
    + unfold App1.parseStations.
      etransitivity; [apply filter_length_le|]. now rewrite length_map.
  - intros st. unfold App1.buildPayloadFromForm; simpl.
    rewrite map_map. reflexivity.
  - vm_compute. reflexivity.
  - vm_compute. reflexivity.
Qed.

(** C9, the claim as worded fails for an input value that [Number] does
    not convert: [toNumber(Symbol())] throws a [TypeError] and returns
    nothing, with the default fallback as with [Math.PI]. *)
Lemma C9_counterexample_Symbol :
  Any.Number (Any.Primitive Any.Symbol) = None
  /\ Any.toNumber (Any.Primitive Any.Symbol) None = None
  /\ Any.toNumber (Any.Primitive Any.Symbol) (Some Math_PI) = None.
Proof. repeat split. Qed.

(** C9, amended. For every finite fallback (the default 0 and [Math.PI]
    are the two the form passes), [toNumber] throws exactly when
    [Number(value)] throws, and for every other input value it returns a
    finite number: [Number(value)] when that is finite, the fallback
    otherwise.  [Number] converts every [undefined], [null], boolean,
    number and string, which are the values a form field holds; hence
    [toNumber] returns for each of them, and every number of a payload
    built from the form is finite, whatever the form holds. *)
Theorem C9_toNumber_finite (value : Any.t) (fb : option number)
  (Hfb : isFinite (fallbackOf fb) = true) :
  (Any.toNumber value fb = None <-> Any.Number value = None)
  /\ (forall n, Any.Number value = Some n ->
        Any.toNumber value fb
        = Some (if isFinite n then n else fallbackOf fb))
  /\ (forall r, Any.toNumber value fb = Some r -> isFinite r = true)
  /\ (forall v : jsvalue,
        Any.toNumber (Any.Primitive (Any.Plain v)) fb
        = Some (App1.toNumber v fb)
        /\ isFinite (App1.toNumber v fb) = true
        /\ App1.toNumber v fb
           = (if isFinite (Number v) then Number v else fallbackOf fb))
  /\ isFinite (fallbackOf None) = true
  /\ isFinite (fallbackOf (Some Math_PI)) = true
  /\ forall st : Form.State,
       Forall (fun n => isFinite n = true)
         (Payload.numbers (App1.buildPayloadFromForm st)).
Proof.
  unfold Any.toNumber. fold (fallbackOf fb).
  split; [|split; [|split; [|split]]].
  - destruct (Any.Number value); split; intros H;
      (discriminate H || reflexivity).
  - intros n ->. reflexivity.
  - destruct (Any.Number value) as [n|]; [|discriminate].
    intros r H. injection H as <-.
    destruct (isFinite n) eqn:E; assumption.
  - intros v. split; [|split].
    + cbn [Any.Number]. now rewrite toNumber_cases.
    + now apply toNumber_finite.
    + apply toNumber_cases.
  - split; [reflexivity|]. split; [reflexivity|].
    apply payload_numbers_finite.
Qed.

Lemma C9_toNumber_finite_witness :
  isFinite (fallbackOf None) = true
  /\ Any.toNumber (Any.Primitive (Any.Plain (VString (u16 "1e999")))) None
     = Some zero
  /\ isFinite (App1.toNumber (VString (u16 "1e999")) None) = true.
Proof.
  split; [reflexivity|].
  destruct (C9_toNumber_finite
              (Any.Primitive (Any.Plain (VString (u16 "1e999")))) None
              eq_refl)
    as [_ [_ [_ [H _]]]].
  destruct (H (VString (u16 "1e999"))) as [E [F _]].
  split; [|exact F]. rewrite E. vm_compute. reflexivity.
Defined.

Lemma toNumber_same (v : jsvalue) (fb : option number) :
  App2.toNumber v fb = App1.toNumber v fb.
Proof. reflexivity. Qed.

Lemma parseStations_same (s : jsstring) :
  App2.parseStations s = App1.parseStations s.
Proof. reflexivity. Qed.

(** C10. For one and the same form state, the payload built by
    [buildPayloadFromForm] in the first component and the payload built
    inside [handleSubmit] of the second component are equal: same fields,
    same values, lists in the same order. *)
Theorem C10_payloads_agree (st : Form.State) :
  App2.handleSubmit_payload st = App1.buildPayloadFromForm st.
Proof.
  unfold App2.handleSubmit_payload, App1.buildPayloadFromForm.
  f_equal;
    try (apply map_ext; intros r;
         now rewrite ?toNumber_same, ?parseStations_same).
Qed.

End Client.

(* ================================================================= *)
(** * Properties of the calculation service *)

Section Service.
Import Engine.
Local Open Scope R_scope.

(** Decides the comparisons of concrete reals met while evaluating. *)
Ltac r_decide :=
  repeat match goal with
    | |- context [Rlt_dec ?a ?b] =>
        destruct (Rlt_dec a b); try (exfalso; lra)
    | |- context [Rle_dec ?a ?b] =>
        destruct (Rle_dec a b); try (exfalso; lra)
    | |- context [Req_dec_T ?a ?b] =>
        destruct (Req_dec_T a b); try (exfalso; lra)
    end.

(** *** Rounding *)

Lemma floor_bounds (x : R) : IZR (up x - 1) <= x < IZR (up x - 1) + 1.
Proof.
  destruct (archimed x) as [H1 H2]. rewrite minus_IZR. lra.
Qed.



Lemma roundHalfEven_eq (x : R) (z : Z) :
  IZR z - 1 / 2 < x < IZR z + 1 / 2 -> roundHalfEven x = z.
Proof.
  intros [Hl Hu]. unfold roundHalfEven.
  pose proof (floor_bounds x) as [Fl Fu].
  set (f := (up x - 1)%Z) in *.
  assert (Hz : (f <= z < f + 2)%Z).
  { split.
    - apply Z.lt_succ_r. apply lt_IZR. rewrite succ_IZR. lra.
    - apply lt_IZR. rewrite plus_IZR. lra. }
  assert (Hcases : z = f \/ z = (f + 1)%Z) by lia.
  destruct Hcases as [-> | ->].
  - destruct (Rlt_dec (x - IZR f) (1 / 2)); [reflexivity | lra].
  - rewrite plus_IZR in Hl, Hu.
    destruct (Rlt_dec (x - IZR f) (1 / 2)); [lra|].
    destruct (Rlt_dec (1 / 2) (x - IZR f)); [reflexivity | lra].
Qed.

Lemma round2_eq (x : R) (z : Z) :
  IZR z - 1 / 2 < x * 100 < IZR z + 1 / 2 -> round2 x = IZR z / 100.
Proof. intros H. unfold round2. now rewrite (roundHalfEven_eq _ z H). Qed.


(** *** Traversals *)

Lemma allSome_length {A B : Type} (f : A -> option B) (l : list A)
  (bs : list B) :
  allSome f l = Some bs -> List.length bs = List.length l.
Proof.
  revert bs. induction l as [|a l IH]; simpl; intros bs H.
  - now inversion H.
  - destruct (f a); [|discriminate].
    destruct (allSome f l); [|discriminate].
    inversion H; subst. simpl. now rewrite (IH l0).
Qed.

Lemma allSome_Forall2 {A B : Type} (f : A -> option B) (l : list A)
  (bs : list B) :
  allSome f l = Some bs -> Forall2 (fun a b => f a = Some b) l bs.
Proof.
  revert bs. induction l as [|a l IH]; simpl; intros bs H.
  - inversion H. constructor.
  - destruct (f a) eqn:E; [|discriminate].
    destruct (allSome f l); [|discriminate].
    inversion H; subst. constructor; [exact E | now apply IH].
Qed.

Lemma allSome_total {A B : Type} (f : A -> option B) (l : list A) :
  (forall a, In a l -> exists b, f a = Some b) ->
  exists bs, allSome f l = Some bs.
Proof.
  induction l as [|a l IH]; simpl; intros H.
  - now exists [].
  - destruct (H a (or_introl eq_refl)) as [b ->].
    destruct IH as [bs ->]; [intros; apply H; now right|].
    now exists (b :: bs).
Qed.

(** *** Ordering the occurrences by radius *)

Section Sorting.

Variable pi : R.

Let byRadius (a b : StationType) : Prop := radius pi b <= radius pi a.

Lemma insertByRadius_perm (x : StationType) (l : list StationType) :
  Permutation (insertByRadius pi x l) (x :: l).
Proof.
  induction l as [|y l IH]; simpl; [apply Permutation_refl|].
  destruct (Rle_dec (radius pi y) (radius pi x)).
  - apply Permutation_refl.
  - eapply perm_trans; [apply perm_skip, IH | apply perm_swap].
Qed.

Lemma sortByRadius_perm (occ : list StationType) :
  Permutation (sortByRadius pi occ) occ.
Proof.
  induction occ as [|x occ IH]; simpl; [constructor|].
  eapply perm_trans; [apply insertByRadius_perm | now apply perm_skip].
Qed.

Lemma sortByRadius_length (occ : list StationType) :
  List.length (sortByRadius pi occ) = List.length occ.
Proof. apply Permutation_length, sortByRadius_perm. Qed.

Lemma insertByRadius_sorted (x : StationType) (l : list StationType) :
  StronglySorted byRadius l ->
  StronglySorted byRadius (insertByRadius pi x l).
Proof.
  induction l as [|y l IH]; simpl; intros Hs.
  - constructor; constructor.
  - inversion Hs as [|? ? Hl Hy]; subst.
    destruct (Rle_dec (radius pi y) (radius pi x)) as [Hle|Hgt].
    + constructor; [exact Hs|]. constructor; [exact Hle|].
      eapply Forall_impl; [|exact Hy]. unfold byRadius. intros; lra.
    + constructor; [now apply IH|].
      apply Forall_forall. intros z Hz.
      apply (Permutation_in _ (insertByRadius_perm x l)) in Hz.
      destruct Hz as [<- | Hz].
      * unfold byRadius. lra.
      * rewrite Forall_forall in Hy. now apply Hy.
Qed.

Lemma sortByRadius_sorted (occ : list StationType) :
  StronglySorted byRadius (sortByRadius pi occ).
Proof.
  induction occ as [|x occ IH]; simpl; [constructor|].
  now apply insertByRadius_sorted.
Qed.




Lemma C_total (occ : list StationType) :
  (3 <= List.length occ)%nat -> exists c, C pi occ = Some c /\ 0 < c.
Proof.
  intros Hlen. rewrite <- sortByRadius_length in Hlen.
  unfold C, top3, D.
  destruct (sortByRadius pi occ) as [|s1 [|s2 [|s3 rest]]];
    simpl in Hlen; try lia.
  eexists. split.
  - destruct rest; reflexivity.
  - unfold Rpower.
    pose proof (exp_pos (5 / 2 * ln (2 * radius pi s1))).
    pose proof (exp_pos (3 / 2 * ln (2 * radius pi s2))).
    pose proof (exp_pos (1 / 2 * ln (2 * radius pi s3))).
    lra.
Qed.

End Sorting.

(** *** One district *)


Lemma distinct_In (l : list Z) (x : Z) : In x (distinct l) <-> In x l.
Proof.
  induction l as [|y l IH]; simpl; [tauto|].
  rewrite filter_In, IH. destruct (Z.eqb_spec x y) as [->|Hne].
  - tauto.
  - simpl. split.
    + intros [H | [H _]]; [now left | now right].
    + intros [H | H]; [now left | right; now split].
Qed.




Lemma calculateDistrict_inv (pi : R) (sts : list StationType)
  (m : HandoverMap) (d : DistrictInput) (res : DistrictResult) (nf : R) :
  calculateDistrict pi sts m d = inr (res, nf) ->
  exists occ values c,
    allSome (findStationType sts) (stations d) = Some occ
    /\ allSome (handoverOf m) (distinct (stations d)) = Some values
    /\ C pi occ = Some c /\ c <> 0
    /\ nf = (if existsb (belowMin (Havg values)) occ
             then L pi d occ / c * (14 / 10) else L pi d occ / c)
    /\ res = {| districtId := d_id d;
                n := round2 nf;
                handoverAvg := round2 (Havg values);
                handoverAdjusted := existsb (belowMin (Havg values)) occ |}.
Proof.
  unfold calculateDistrict.
  destruct (allSome (findStationType sts) (stations d)) as [occ|];
    [|discriminate].
  destruct (allSome (handoverOf m) (distinct (stations d))) as [values|];
    [|discriminate].
  destruct (C pi occ) as [c|] eqn:EC; [|discriminate].
  destruct (Req_dec_T c 0) as [|Hc]; [discriminate|].
  intros H. injection H as <- <-. exists occ, values, c.
  split; [reflexivity|]. split; [reflexivity|]. split; [exact EC|].
  split; [exact Hc|]. split; reflexivity.
Qed.

Lemma calculateDistrict_total (pi : R) (sts : list StationType)
  (m : HandoverMap) (d : DistrictInput) :
  (3 <= List.length (stations d))%nat ->
  (forall i, In i (stations d) -> exists st, findStationType sts i = Some st) ->
  (forall i, In i (stations d) -> exists v, handoverOf m i = Some v) ->
  exists r, calculateDistrict pi sts m d = inr r.
Proof.
  intros Hlen Hst Hh. unfold calculateDistrict.
  destruct (allSome_total _ _ Hst) as [occ Hocc].
  destruct (allSome_total (handoverOf m) (distinct (stations d)))
    as [values Hvalues].
  { intros i Hi. apply Hh. now apply distinct_In. }
  rewrite Hocc, Hvalues.
  destruct (C_total pi occ) as [c [Hc Hpos]].
  { now rewrite (allSome_length _ _ _ Hocc). }
  rewrite Hc. destruct (Req_dec_T c 0); [lra|]. eexists. reflexivity.
Qed.

Lemma calculateDistricts_inv (pi : R) (sts : list StationType)
  (m : HandoverMap) (ds : list DistrictInput)
  (rs : list (DistrictResult * R)) :
  calculateDistricts pi sts m ds = inr rs ->
  Forall2 (fun d r => calculateDistrict pi sts m d = inr r) ds rs.
Proof.
  revert rs. induction ds as [|d ds IH]; simpl; intros rs H.
  - inversion H. constructor.
  - destruct (calculateDistrict pi sts m d) as [|r] eqn:E; [discriminate|].
    destruct (calculateDistricts pi sts m ds) as [|rs']; [discriminate|].
    inversion H; subst. constructor; [exact E | now apply IH].
Qed.

Lemma calculateDistricts_total (pi : R) (sts : list StationType)
  (m : HandoverMap) (ds : list DistrictInput) :
  (forall d, In d ds -> exists r, calculateDistrict pi sts m d = inr r) ->
  exists rs, calculateDistricts pi sts m ds = inr rs.
Proof.
  induction ds as [|d ds IH]; simpl; intros H.
  - now eexists.
  - destruct (H d (or_introl eq_refl)) as [r ->].
    destruct IH as [rs ->]; [intros; apply H; now right|].
    now eexists.
Qed.

(** *** Validator *)

Lemma firstError_None {A : Type} (check : A -> option ValidationError)
  (l : list A) :
  firstError check l = None <-> forall a, In a l -> check a = None.
Proof.
  induction l as [|a l IH]; simpl.
  - split; [intros _ a [] | reflexivity].
  - destruct (check a) eqn:E.
    + split; [discriminate|]. intros H.
      rewrite (H a (or_introl eq_refl)) in E. discriminate.
    + rewrite IH. split.
      * intros H b [<- | Hb]; [exact E | now apply H].
      * intros H b Hb. apply H. now right.
Qed.

Lemma firstError_first {A : Type} (check : A -> option ValidationError)
  (pre post : list A) (a : A) (e : ValidationError) :
  (forall b, In b pre -> check b = None) -> check a = Some e ->
  firstError check (pre ++ a :: post) = Some e.
Proof.
  intros Hpre Ha. induction pre as [|b pre IH]; simpl.
  - now rewrite Ha.
  - rewrite (Hpre b (or_introl eq_refl)). apply IH.
    intros c Hc. apply Hpre. now right.
Qed.

Lemma firstError_fails {A : Type} (check : A -> option ValidationError)
  (l : list A) (a : A) :
  In a l -> check a <> None -> exists e, firstError check l = Some e.
Proof.
  intros Hin Ha. destruct (firstError check l) as [e|] eqn:E.
  - now exists e.
  - rewrite firstError_None in E. now rewrite (E a Hin) in Ha.
Qed.

Lemma checkDistrict_short (d : DistrictInput) :
  (List.length (stations d) < 3)%nat ->
  exists e, checkDistrict d = Some e /\ errorDistrict e = Some (d_id d).
Proof.
  intros Hlen. unfold checkDistrict.
  destruct (Rlt_dec 0 (area d)); [|eexists; split; reflexivity].
  destruct (Rlt_dec 0 (k d)); [|eexists; split; reflexivity].
  apply Nat.ltb_lt in Hlen. rewrite Hlen. eexists; split; reflexivity.
Qed.

Lemma checkDistrict_too_few (d : DistrictInput) :
  0 < area d -> 0 < k d -> (List.length (stations d) < 3)%nat ->
  checkDistrict d = Some (TooFewStations (d_id d)).
Proof.
  intros Ha Hk Hlen. unfold checkDistrict.
  destruct (Rlt_dec 0 (area d)); [|contradiction].
  destruct (Rlt_dec 0 (k d)); [|contradiction].
  apply Nat.ltb_lt in Hlen. now rewrite Hlen.
Qed.

Lemma checkDistrict_valid (d : DistrictInput) :
  checkDistrict d = None ->
  0 < area d /\ 0 < k d /\ (3 <= List.length (stations d))%nat.
Proof.
  unfold checkDistrict.
  destruct (Rlt_dec 0 (area d)); [|discriminate].
  destruct (Rlt_dec 0 (k d)); [|discriminate].
  destruct (List.length (stations d) <? 3)%nat eqn:E; [discriminate|].
  apply Nat.ltb_ge in E. auto.
Qed.

Lemma validate_short (req : CalculationRequest) (d : DistrictInput) :
  In d (districts req) -> (List.length (stations d) < 3)%nat ->
  exists e, validate req = Some e.
Proof.
  intros Hin Hlen. unfold validate.
  destruct (firstError_fails checkDistrict (districts req) d Hin) as [e He].
  - destruct (checkDistrict_short d Hlen) as [e [-> _]]. discriminate.
  - rewrite He. now exists e.
Qed.

Lemma validate_valid (req : CalculationRequest) :
  validate req = None ->
  (forall d, In d (districts req) -> checkDistrict d = None)
  /\ (forall st, In st (stationTypes req) -> 0 < coverageArea st)
  /\ (forall d i, In d (districts req) -> In i (stations d) ->
        exists st, findStationType (stationTypes req) i = Some st).
Proof.
  unfold validate, orElse.
  destruct (firstError checkDistrict (districts req)) eqn:E1;
    [discriminate|].
  destruct (firstError checkStationType (stationTypes req)) eqn:E2;
    [discriminate|].
  destruct (checkDuplicates (map id (stationTypes req))); [discriminate|].
  intros E3. rewrite firstError_None in E1.
  rewrite firstError_None in E2. rewrite firstError_None in E3.
  split; [exact E1|]. split.
  - intros st Hst. specialize (E2 st Hst). unfold checkStationType in E2.
    destruct (Rlt_dec 0 (coverageArea st)); [assumption | discriminate].
  - intros d i Hd Hi. specialize (E3 d Hd). unfold checkReferences in E3.
    rewrite firstError_None in E3. specialize (E3 i Hi).
    destruct (findStationType (stationTypes req) i) as [st|];
      [now exists st | discriminate].
Qed.

(** *** Resolver *)

Lemma resolveAll_covers (src : Source) (local : HandoverMap)
  (ids : list Z) (m : HandoverMap) :
  resolveAll src local ids = inr m ->
  forall i, In i ids -> exists v, handoverOf m i = Some v.
Proof.
  revert m. induction ids as [|j ids IH]; simpl; intros m H i Hi;
    [contradiction|].
  destruct (resolveOne src local j) as [|v]; [discriminate|].
  destruct (resolveAll src local ids) as [|m']; [discriminate|].
  inversion H; subst. simpl.
  destruct (Z.eqb_spec j i) as [->|Hne]; [now exists v|].
  destruct Hi as [Hi|Hi]; [contradiction|]. now apply (IH m').
Qed.

Lemma resolveOne_no_source (local : HandoverMap) (i : Z) :
  handoverOf local i = None ->
  resolveOne None local i = inl (Validation (NoHandoverData i)).
Proof. intros H. unfold resolveOne. now rewrite H. Qed.

Lemma resolveAll_first_missing (local : HandoverMap)
  (pre post : list Z) (x : Z) :
  (forall y, In y pre -> handoverOf local y <> None) ->
  handoverOf local x = None ->
  resolveAll None local (pre ++ x :: post)
  = inl (Validation (NoHandoverData x)).
Proof.
  intros Hpre Hx. induction pre as [|y pre IH]; simpl.
  - now rewrite (resolveOne_no_source _ _ Hx).
  - unfold resolveOne at 1.
    destruct (handoverOf local y) eqn:E.
    + rewrite IH; [reflexivity|]. intros z Hz. apply Hpre. now right.
    + exfalso. apply (Hpre y (or_introl eq_refl)). exact E.
Qed.

Lemma resolveAll_missing (local : HandoverMap) (ids : list Z) (x : Z) :
  In x ids -> handoverOf local x = None ->
  exists y, resolveAll None local ids = inl (Validation (NoHandoverData y))
            /\ In y ids /\ handoverOf local y = None.
Proof.
  induction ids as [|j ids IH]; simpl; intros Hin Hx; [contradiction|].
  destruct (handoverOf local j) eqn:E.
  - destruct Hin as [->|Hin]; [congruence|].
    destruct (IH Hin Hx) as [y [Hy [Hiny Hnone]]].
    exists y. unfold resolveOne. rewrite E, Hy. auto.
  - exists j. rewrite (resolveOne_no_source _ _ E). auto.
Qed.

(** *** The pipeline *)

Lemma handle_invalid
  (engine : CalculationRequest -> HandoverMap
            -> Failure + CalculationResponse)
  (src : Source) (req : CalculationRequest) (e : ValidationError) :
  validate req = Some e -> handle engine src req = inl (Validation e).
Proof. intros H. unfold handle. now rewrite H. Qed.


(** A request that passes validation and whose handovers resolve is
    computed: the engine returns a response. *)
Lemma process_total (src : Source) (req : CalculationRequest)
  (m : HandoverMap) :
  validate req = None -> resolveHandovers src req = inr m ->
  exists rs, fullPrecision req m = inr rs
             /\ process src req = inr (respond rs).
Proof.
  intros Hv Hr.
  destruct (validate_valid req Hv) as [Hd [_ Href]].
  assert (Hfull : exists rs, fullPrecision req m = inr rs).
  { unfold fullPrecision. apply calculateDistricts_total. intros d Hin.
    apply calculateDistrict_total.
    - now apply checkDistrict_valid, Hd.
    - intros i Hi. now apply (Href d).
    - intros i Hi. apply (resolveAll_covers _ _ _ _ Hr).
      unfold referencedIds. rewrite distinct_In, in_flat_map.
      now exists d. }
  destruct Hfull as [rs Hrs]. exists rs. split; [exact Hrs|].
  unfold process, handle, calculate. now rewrite Hv, Hr, Hrs.
Qed.


(** *** The test inputs, evaluated *)

Lemma Rpower_one (y : R) : Rpower 1 y = 1.
Proof. unfold Rpower. now rewrite ln_1, Rmult_0_r, exp_0. Qed.

Lemma small_radius : radius (pi smallRequest) smallType = 1 / 2.
Proof.
  unfold radius. cbn [pi smallRequest coverageArea smallType].
  apply sqrt_lem_1; lra.
Qed.

Lemma small_R0 (name : string) :
  R0 (pi smallRequest) (smallDistrict name) = 1.
Proof.
  unfold R0. cbn [pi smallRequest area smallDistrict].
  apply sqrt_lem_1; lra.
Qed.

Lemma small_C :
  C (pi smallRequest) [smallType; smallType; smallType] = Some 3.
Proof.
  unfold C, top3, sortByRadius.
  repeat (cbn [fold_right insertByRadius];
          destruct (Rle_dec (radius (pi smallRequest) smallType)
                            (radius (pi smallRequest) smallType)) as [_|H];
          [|exfalso; apply H; lra]).
  cbn [firstn]. unfold D. rewrite small_radius.
  replace (2 * (1 / 2)) with 1 by lra.
  rewrite !Rpower_one. f_equal. lra.
Qed.

Lemma small_L (name : string) :
  L (pi smallRequest) (smallDistrict name)
    [smallType; smallType; smallType] = 12 / 1000.
Proof.
  unfold L, mean, Rsum, Li. cbn [map fold_right List.length INR].
  rewrite small_R0, small_radius. cbn [k smallDistrict]. lra.
Qed.

Lemma small_district (name : string) :
  calculateDistrict (pi smallRequest) [smallType] [(1%Z, 14)]
    (smallDistrict name)
  = inr ({| districtId := name; n := 0; handoverAvg := 14;
            handoverAdjusted := false |}, 4 / 1000).
Proof.
  unfold calculateDistrict.
  change (allSome (findStationType [smallType])
            (stations (smallDistrict name)))
    with (Some [smallType; smallType; smallType]).
  change (allSome (handoverOf [(1%Z, 14)])
            (distinct (stations (smallDistrict name))))
    with (Some [14]).
  cbv iota beta. rewrite small_C, small_L.
  destruct (Req_dec_T 3 0); [lra|].
  assert (Hh : Havg [14] = 14).
  { unfold Havg, mean, Rsum. cbn [fold_right List.length INR]. lra. }
  rewrite Hh.
  assert (Hb : existsb (belowMin 14) [smallType; smallType; smallType]
               = false).
  { unfold belowMin. cbn [existsb handoverMin smallType].
    destruct (Rlt_dec 14 12); [lra | reflexivity]. }
  rewrite Hb. cbn [d_id smallDistrict].
  replace (12 / 1000 / 3) with (4 / 1000) by lra.
  rewrite (round2_eq (4 / 1000) 0) by lra.
  rewrite (round2_eq 14 1400) by lra.
  do 2 f_equal. f_equal; lra.
Qed.

Lemma small_checkDistrict (name : string) :
  checkDistrict (smallDistrict name) = None.
Proof.
  unfold checkDistrict. cbn [area k stations smallDistrict].
  r_decide. reflexivity.
Qed.

Lemma small_validate : validate smallRequest = None.
Proof.
  unfold validate. cbn [districts stationTypes smallRequest firstError].
  rewrite !small_checkDistrict.
  unfold checkStationType. cbn [coverageArea smallType].
  r_decide. reflexivity.
Qed.

Lemma small_resolve (src : Source) :
  resolveHandovers src smallRequest = inr [(1%Z, 14)].
Proof. reflexivity. Qed.

Lemma small_fullPrecision :
  fullPrecision smallRequest [(1%Z, 14)]
  = inr [smallResult "a"; smallResult "b"; smallResult "c";
         smallResult "d"].
Proof.
  unfold fullPrecision.
  cbn [districts stationTypes smallRequest calculateDistricts].
  now rewrite !small_district.
Qed.

Lemma small_process (src : Source) :
  process src smallRequest
  = inr {| districtResults :=
             map fst [smallResult "a"; smallResult "b"; smallResult "c";
                      smallResult "d"];
           totalN := 2 / 100 |}.
Proof.
  unfold process, handle, calculate.
  rewrite small_validate, small_resolve, small_fullPrecision.
  unfold respond. do 2 f_equal.
  unfold Rsum. cbn [map snd smallResult fold_right].
  apply (round2_eq _ 2). lra.
Qed.



Lemma Li_closed_form (pi : R) (d : DistrictInput) (st : StationType) :
  0 < pi -> 0 <= area d -> 0 < coverageArea st ->
  Li pi d st = k d * (area d / coverageArea st).
Proof.
  intros Hpi Ha Hs. unfold Li, R0, radius.
  assert (Hy : 0 < coverageArea st / pi) by now apply Rdiv_lt_0_compat.
  assert (Hx : 0 <= area d / pi).
  { apply Rmult_le_pos; [exact Ha|]. left. now apply Rinv_0_lt_compat. }
  rewrite <- sqrt_div_alt by exact Hy.
  rewrite pow2_sqrt.
  - f_equal. field. split; lra.
  - apply Rmult_le_pos; [exact Hx|]. left. now apply Rinv_0_lt_compat.
Qed.






Lemma findStationType_In (sts : list StationType) (i : Z)
  (st : StationType) :
  findStationType sts i = Some st -> In st sts /\ id st = i.
Proof.
  intros H. apply find_some in H. destruct H as [Hin Heq].
  split; [exact Hin | now apply Z.eqb_eq].
Qed.










(** *** The aggregate *)






(** *** Rejections *)

Lemma twoShort_validate :
  validate twoShortRequest = Some (TooFewStations "north").
Proof.
  unfold validate. cbn [districts twoShortRequest firstError].
  rewrite (checkDistrict_too_few (shortDistrict "north"));
    cbn [area k stations shortDistrict List.length]; try lra; try lia.
  reflexivity.
Qed.

(** C6, the claim as worded fails: of two districts with two stations
    each, the validation error is about the first one only. *)
Lemma C6_counterexample_two_short_districts :
  In (shortDistrict "south") (districts twoShortRequest)
  /\ (List.length (stations (shortDistrict "south")) < 3)%nat
  /\ validate twoShortRequest = Some (TooFewStations "north")
  /\ errorDistrict (TooFewStations "north")
     <> Some (d_id (shortDistrict "south")).
Proof.
  split; [right; left; reflexivity|].
  split; [cbn; lia|].
  split; [apply twoShort_validate|].
  cbn. discriminate.
Qed.

(** C6, amended. For every request containing a district whose stations
    list has fewer than 3 occurrences (duplicates counting), validation
    returns a validation error and the request ends with it whatever the
    engine is: the engine is not invoked and no response is produced.
    Checked on its own, that district is rejected with an error about it,
    and the request's error is the too-few-stations error of that district
    when every district before it passes its checks and its area and [k]
    are positive. *)
Theorem C6_short_district_rejected
  (engine : CalculationRequest -> HandoverMap
            -> Failure + CalculationResponse)
  (src : Source) (req : CalculationRequest) (d : DistrictInput)
  (Hin : In d (districts req))
  (Hshort : (List.length (stations d) < 3)%nat) :
  (exists e, validate req = Some e
             /\ handle engine src req = inl (Validation e))
  /\ (forall resp, handle engine src req <> inr resp)
  /\ (exists e, checkDistrict d = Some e
                /\ errorDistrict e = Some (d_id d))
  /\ (forall pre post,
         districts req = (pre ++ d :: post)%list ->
         (forall b, In b pre -> checkDistrict b = None) ->
         0 < area d -> 0 < k d ->
         handle engine src req
         = inl (Validation (TooFewStations (d_id d)))).
Proof.
  destruct (validate_short req d Hin Hshort) as [e He].
  pose proof (handle_invalid engine src req e He) as Hh.
  split; [exists e; now split|].
  split; [intros resp; rewrite Hh; discriminate|].
  split; [now apply checkDistrict_short|].
  intros pre post Hd Hpre Ha Hk.
  apply handle_invalid. unfold validate. rewrite Hd.
  rewrite (firstError_first checkDistrict pre post d
             (TooFewStations (d_id d)) Hpre); [reflexivity|].
  now apply checkDistrict_too_few.
Qed.

Lemma C6_short_district_rejected_witness :
  In (shortDistrict "south") (districts twoShortRequest)
  /\ (List.length (stations (shortDistrict "south")) < 3)%nat
  /\ forall resp, handle calculate None twoShortRequest <> inr resp.
Proof.
  assert (Hin : In (shortDistrict "south") (districts twoShortRequest)).
  { right; left; reflexivity. }
  assert (Hlen : (List.length (stations (shortDistrict "south")) < 3)%nat).
  { cbn; lia. }
  split; [exact Hin|]. split; [exact Hlen|].
  exact (proj1 (proj2 (C6_short_district_rejected calculate None
                         twoShortRequest (shortDistrict "south")
                         Hin Hlen))).
Defined.

Lemma noHandover_validate : validate noHandoverRequest = None.
Proof.
  unfold validate.
  cbn [districts stationTypes noHandoverRequest firstError].
  unfold checkDistrict, checkStationType.
  cbn [area k stations coverageArea].
  r_decide. reflexivity.
Qed.

Lemma noHandover_process
  (engine : CalculationRequest -> HandoverMap
            -> Failure + CalculationResponse) :
  handle engine None noHandoverRequest
  = inl (Validation (NoHandoverData 7)).
Proof. unfold handle. rewrite noHandover_validate. reflexivity. Qed.

(** C7, the claim as worded fails: with two station types lacking a
    handover entry and no external source, the validation error names the
    first one (7), not the other (8). *)
Lemma C7_counterexample_two_missing_handovers :
  (exists d, In d (districts noHandoverRequest) /\ In 8%Z (stations d))
  /\ handoverOf (localHandovers (handovers noHandoverRequest)) 8 = None
  /\ process None noHandoverRequest = inl (Validation (NoHandoverData 7))
  /\ errorStationType (NoHandoverData 7) <> Some 8%Z.
Proof.
  split.
  - eexists. split; [left; reflexivity|]. cbn. tauto.
  - split; [reflexivity|]. split; [apply noHandover_process|].
    cbn. discriminate.
Qed.

(** C7, amended. For every request in which some district references a
    station-type id that has no entry in the request's handovers list,
    with no external source configured, the request fails with a
    validation error and no calculation is performed, whatever the engine
    is.  Resolving that id on its own gives the error that names it; when
    the request passes the validator, the error of the request names a
    referenced id that has no handover entry, and it names that very id
    when no id referenced before it lacks an entry. *)
Theorem C7_missing_handover_rejected
  (engine : CalculationRequest -> HandoverMap
            -> Failure + CalculationResponse)
  (req : CalculationRequest) (d : DistrictInput) (x : Z)
  (Hd : In d (districts req)) (Hx : In x (stations d))
  (Hmissing : handoverOf (localHandovers (handovers req)) x = None) :
  (exists e, handle engine None req = inl (Validation e))
  /\ (forall resp, handle engine None req <> inr resp)
  /\ resolveOne None (localHandovers (handovers req)) x
     = inl (Validation (NoHandoverData x))
  /\ (validate req = None ->
      exists y, handle engine None req = inl (Validation (NoHandoverData y))
                /\ In y (referencedIds req)
                /\ handoverOf (localHandovers (handovers req)) y = None)
  /\ (validate req = None ->
      forall pre post,
        referencedIds req = (pre ++ x :: post)%list ->
        (forall y, In y pre ->
                   handoverOf (localHandovers (handovers req)) y <> None) ->
        handle engine None req = inl (Validation (NoHandoverData x))).
Proof.
  assert (Href : In x (referencedIds req)).
  { unfold referencedIds. rewrite distinct_In, in_flat_map. now exists d. }
  destruct (resolveAll_missing _ _ _ Href Hmissing) as [y [Hy [Hiny Hnone]]].
  assert (Hfail : exists e, handle engine None req = inl (Validation e)).
  { unfold handle. destruct (validate req) as [e|]; [now exists e|].
    unfold resolveHandovers. rewrite Hy. now eexists. }
  split; [exact Hfail|].
  split; [destruct Hfail as [e He]; intros resp; rewrite He; discriminate|].
  split; [now apply resolveOne_no_source|].
  split.
  - intros Hv. exists y. unfold handle, resolveHandovers.
    rewrite Hv, Hy. auto.
  - intros Hv pre post Hids Hpre. unfold handle, resolveHandovers.
    rewrite Hv, Hids.
    now rewrite (resolveAll_first_missing _ pre post x Hpre Hmissing).
Qed.

Lemma C7_missing_handover_rejected_witness :
  In 8%Z (stations (nth 0 (districts noHandoverRequest) readmeDistrict))
  /\ handoverOf (localHandovers (handovers noHandoverRequest)) 8 = None
  /\ forall resp, handle calculate None noHandoverRequest <> inr resp.
Proof.
  assert (Hd : In (nth 0 (districts noHandoverRequest) readmeDistrict)
                 (districts noHandoverRequest)).
  { left; reflexivity. }
  assert (Hx : In 8%Z
                 (stations (nth 0 (districts noHandoverRequest)
                              readmeDistrict))).
  { right; left; reflexivity. }
  split; [exact Hx|]. split; [reflexivity|].
  exact (proj1 (proj2 (C7_missing_handover_rejected calculate
                         noHandoverRequest _ 8%Z Hd Hx eq_refl))).
Defined.

End Service.

(* ================================================================= *)
(** * Further properties of the form client *)

Section ClientMore.
Import JS.
Local Open Scope list_scope.

(** *** Splitting and trimming *)

Lemma split_app (sep : N) (a b : jsstring) :
  split sep (a ++ sep :: b) = (split sep a ++ split sep b)%list.
Proof.
  induction a as [|c a IH]; cbn [app split].
  - now rewrite N.eqb_refl.
  - destruct (N.eqb c sep); rewrite IH; [reflexivity|].
    destruct (split sep a) eqn:E; [now apply split_nonempty in E|].
    reflexivity.
Qed.

Lemma split_no_sep (sep : N) (s : jsstring) :
  ~ In sep s -> split sep s = [s].
Proof.
  induction s as [|c s IH]; intros Hno; [reflexivity|].
  cbn [split]. destruct (N.eqb_spec c sep) as [->|_].
  - exfalso. apply Hno. now left.
  - rewrite IH; [reflexivity|]. intros H. apply Hno. now right.
Qed.

Lemma split_prefix (sep : N) (ws s : jsstring) :
  ~ In sep ws ->
  split sep (ws ++ s)
  = match split sep s with
    | t :: ts => (ws ++ t)%list :: ts
    | [] => []
    end.
Proof.
  induction ws as [|c ws IH]; intros Hno; cbn [app].
  - destruct (split sep s) eqn:E; [now apply split_nonempty in E|].
    reflexivity.
  - cbn [split]. destruct (N.eqb_spec c sep) as [->|_].
    + exfalso. apply Hno. now left.
    + rewrite IH by (intros H; apply Hno; now right).
      destruct (split sep s) eqn:E; [now apply split_nonempty in E|].
      reflexivity.
Qed.

Lemma split_suffix (sep : N) (s ws : jsstring) :
  ~ In sep ws ->
  exists init last,
    split sep s = (init ++ [last])%list
    /\ split sep (s ++ ws) = (init ++ [(last ++ ws)%list])%list.
Proof.
  intros Hno. induction s as [|c s [init [last [E1 E2]]]].
  - exists [], []. split; [reflexivity|]. now apply split_no_sep.
  - cbn [app split]. destruct (N.eqb c sep).
    + exists ([] :: init), last. now rewrite E1, E2.
    + rewrite E1, E2. destruct init as [|i init].
      * exists [], (c :: last). split; reflexivity.
      * exists ((c :: i) :: init), last. split; reflexivity.
Qed.


Lemma blank_no_comma (ws : jsstring) :
  Handlers.blank ws -> ~ In (cu ",") ws.
Proof.
  intros Hb Hin. unfold Handlers.blank in Hb. rewrite Forall_forall in Hb.
  specialize (Hb _ Hin). vm_compute in Hb. discriminate.
Qed.

Lemma trimStart_blank (ws s : jsstring) :
  Handlers.blank ws -> trimStart (ws ++ s) = trimStart s.
Proof.
  induction 1 as [|c ws Hc _ IH]; [reflexivity|].
  cbn [app trimStart]. now rewrite Hc.
Qed.

Lemma trimStart_blank_nil (ws : jsstring) :
  Handlers.blank ws -> trimStart ws = [].
Proof.
  intros H. rewrite <- (app_nil_r ws). now rewrite trimStart_blank.
Qed.

Lemma blank_rev (ws : jsstring) : Handlers.blank ws -> Handlers.blank (rev ws).
Proof. unfold Handlers.blank. apply Forall_rev. Qed.

Lemma trimStart_app (t ws : jsstring) :
  Handlers.blank ws ->
  trimStart (t ++ ws) = (trimStart t ++ ws)%list
  \/ (trimStart t = [] /\ trimStart (t ++ ws) = []).
Proof.
  intros Hb. induction t as [|c t IH]; cbn [app trimStart].
  - right. split; [reflexivity | now apply trimStart_blank_nil].
  - destruct (isWhiteSpace c); [exact IH | now left].
Qed.

Lemma trimEnd_blank (s ws : jsstring) :
  Handlers.blank ws -> trimEnd (s ++ ws) = trimEnd s.
Proof.
  intros Hb. unfold trimEnd. rewrite rev_app_distr.
  now rewrite trimStart_blank by now apply blank_rev.
Qed.

Lemma trim_blank_l (ws t : jsstring) :
  Handlers.blank ws -> trim (ws ++ t) = trim t.
Proof. intros Hb. unfold trim. now rewrite trimStart_blank. Qed.

Lemma trim_blank_r (t ws : jsstring) :
  Handlers.blank ws -> trim (t ++ ws) = trim t.
Proof.
  intros Hb. unfold trim.
  destruct (trimStart_app t ws Hb) as [-> | [-> ->]].
  - now apply trimEnd_blank.
  - reflexivity.
Qed.

Lemma trim_blank (ws : jsstring) : Handlers.blank ws -> trim ws = [].
Proof.
  intros Hb. rewrite <- (app_nil_r ws). now rewrite trim_blank_l.
Qed.

(** The conversion applied to one token. *)
Lemma parseStations_tokens (s : jsstring) :
  App1.parseStations s = finiteTokens (split (cu ",") s).
Proof. unfold App1.parseStations. now rewrite finiteTokens_filter. Qed.

Lemma finiteTokens_app (l1 l2 : list jsstring) :
  finiteTokens (l1 ++ l2) = (finiteTokens l1 ++ finiteTokens l2)%list.
Proof.
  induction l1 as [|t l1 IH]; [reflexivity|].
  cbn [app finiteTokens].
  destruct (isFinite (Number (VString (trim t)))); now rewrite IH.
Qed.

Lemma finiteTokens_same_trim (t t' : jsstring) (rest : list jsstring) :
  trim t = trim t' -> finiteTokens (t :: rest) = finiteTokens (t' :: rest).
Proof. intros H. cbn [finiteTokens]. now rewrite H. Qed.

Lemma parseStations_comma (a b : jsstring) :
  App1.parseStations (a ++ cu "," :: b)
  = App1.parseStations a ++ App1.parseStations b.
Proof.
  now rewrite !parseStations_tokens, split_app, finiteTokens_app.
Qed.

(** X1. The stations text is read part by part: the list for
    [a + "," + b] is the list for [a] followed by the list for [b]. *)
Theorem X1_parseStations_comma (a b : jsstring) :
  App1.parseStations (a ++ cu "," :: b)
  = App1.parseStations a ++ App1.parseStations b.
Proof.
  unfold App1.parseStations.
  rewrite split_app, map_app. apply filter_app.
Qed.

(** X2. A blank entry is not dropped: a stations text that is empty or
    white space only gives the single station 0, and so does every blank
    part after a comma (a trailing comma adds a station 0). *)
Theorem X2_parseStations_blank (a ws : jsstring)
  (Hblank : Handlers.blank ws) :
  App1.parseStations ws = [zero]
  /\ App1.parseStations (a ++ cu "," :: ws)
     = (App1.parseStations a ++ [zero])%list.
Proof.
  assert (H : App1.parseStations ws = [zero]).
  { rewrite parseStations_tokens.
    rewrite split_no_sep by now apply blank_no_comma.
    cbn [finiteTokens]. now rewrite trim_blank. }
  split; [exact H|]. now rewrite parseStations_comma, H.
Qed.

Lemma parseStations_blank_l (ws s : jsstring) :
  Handlers.blank ws -> App1.parseStations (ws ++ s) = App1.parseStations s.
Proof.
  intros Hb. rewrite !parseStations_tokens.
  rewrite split_prefix by now apply blank_no_comma.
  destruct (split (cu ",") s) as [|t ts]; [reflexivity|].
  apply finiteTokens_same_trim. now apply trim_blank_l.
Qed.

Lemma parseStations_blank_r (s ws : jsstring) :
  Handlers.blank ws -> App1.parseStations (s ++ ws) = App1.parseStations s.
Proof.
  intros Hb. rewrite !parseStations_tokens.
  destruct (split_suffix (cu ",") s ws (blank_no_comma ws Hb))
    as [init [last [-> ->]]].
  rewrite !finiteTokens_app. f_equal.
  apply finiteTokens_same_trim. now apply trim_blank_r.
Qed.

(** X3. White space around the stations text does not change the stations
    read from it. *)
Theorem X3_parseStations_padding (ws1 s ws2 : jsstring)
  (H1 : Handlers.blank ws1) (H2 : Handlers.blank ws2) :
  App1.parseStations (ws1 ++ s ++ ws2) = App1.parseStations s.
Proof.
  rewrite parseStations_blank_l by exact H1.
  now apply parseStations_blank_r.
Qed.

Lemma X3_parseStations_padding_witness :
  Handlers.blank (u16 "  ") /\ Handlers.blank (u16 " ")
  /\ App1.parseStations (u16 "  " ++ u16 "1,2" ++ u16 " ")
     = App1.parseStations (u16 "1,2").
Proof.
  assert (B1 : Handlers.blank (u16 "  ")) by (repeat constructor).
  assert (B2 : Handlers.blank (u16 " ")) by (repeat constructor).
  split; [exact B1|]. split; [exact B2|].
  exact (X3_parseStations_padding _ (u16 "1,2") _ B1 B2).
Defined.

Lemma X2_parseStations_blank_witness :
  Handlers.blank (u16 " ")
  /\ App1.parseStations (u16 "7" ++ cu "," :: u16 " ")
     = App1.parseStations (u16 "7") ++ [zero].
Proof.
  assert (B : Handlers.blank (u16 " ")) by (repeat constructor).
  split; [exact B|].
  exact (proj2 (X2_parseStations_blank (u16 "7") _ B)).
Defined.

(** *** Decimal numerals *)

Lemma digits_range (d : Decimal.uint) :
  Forall (fun c => (48 <= c <= 57)%N) (Handlers.digits d).
Proof. induction d; cbn [Handlers.digits]; constructor; auto; lia. Qed.

Lemma digit_cases (c : N) :
  (48 <= c <= 57)%N ->
  c = 48%N \/ c = 49%N \/ c = 50%N \/ c = 51%N \/ c = 52%N \/ c = 53%N
  \/ c = 54%N \/ c = 55%N \/ c = 56%N \/ c = 57%N.
Proof. lia. Qed.

Lemma digit_not_blank (c : N) :
  (48 <= c <= 57)%N -> isWhiteSpace c = false.
Proof.
  intros H. apply digit_cases in H.
  repeat (destruct H as [-> | H]; [reflexivity|]). now subst.
Qed.

Lemma trimStart_id (s : jsstring) :
  Forall (fun c => isWhiteSpace c = false) s -> trimStart s = s.
Proof. destruct 1 as [|c s Hc _]; cbn [trimStart]; now rewrite ?Hc. Qed.

Lemma trim_id (s : jsstring) :
  Forall (fun c => isWhiteSpace c = false) s -> trim s = s.
Proof.
  intros H. unfold trim, trimEnd. rewrite (trimStart_id s H).
  rewrite trimStart_id by now apply Forall_rev. apply rev_involutive.
Qed.

Lemma trim_digits (d : Decimal.uint) :
  trim (Handlers.digits d) = Handlers.digits d.
Proof.
  apply trim_id. eapply Forall_impl; [|apply digits_range].
  apply digit_not_blank.
Qed.

Lemma digits_no_comma (d : Decimal.uint) : ~ In (cu ",") (Handlers.digits d).
Proof.
  intros Hin. pose proof (digits_range d) as H. rewrite Forall_forall in H.
  specialize (H _ Hin). vm_compute in H. destruct H as [H _]. now apply H.
Qed.

Lemma readDigits_digits (d : Decimal.uint) (acc cnt : nat) :
  readDigits 10 (N.of_nat acc) cnt (Handlers.digits d)
  = (N.of_nat (Nat.of_uint_acc d acc), (cnt + Decimal.nb_digits d)%nat, []).
Proof.
  revert acc cnt.
  induction d as [|d IH|d IH|d IH|d IH|d IH|d IH|d IH|d IH|d IH|d IH];
    intros acc cnt;
    [cbn; now rewrite Nat.add_0_r | ..];
    cbn [Handlers.digits readDigits Nat.of_uint_acc Decimal.nb_digits];
    match goal with
    | |- context [digitOf 10 ?c] =>
        let v := eval vm_compute in (digitOf 10 c) in
        change (digitOf 10 c) with v
    end;
    cbv iota beta;
    match goal with
    | |- readDigits 10 ?a _ _ = (N.of_nat (Nat.of_uint_acc d ?b), _, _) =>
        replace a with (N.of_nat b)
          by (rewrite Nat.tail_mul_spec; lia)
    end;
    rewrite IH; do 2 f_equal; lia.
Qed.

Lemma ofDecimal_integer (n : nat) :
  ofDecimal false (N.of_nat n) 0 = ofZ (Z.of_nat n).
Proof.
  destruct n as [|n]; [reflexivity|].
  unfold ofDecimal, ofZ. cbn [N.of_nat Z.of_nat].
  now rewrite Z.pow_0_r, Z.mul_1_r.
Qed.

Lemma StringToNumber_digits (d : Decimal.uint) :
  d <> Decimal.Nil ->
  StringToNumber (Handlers.digits d) = ofZ (Z.of_nat (Nat.of_uint d)).
Proof.
  intros Hd. unfold StringToNumber. rewrite trim_digits.
  assert (Hnd : nonDecimal (Handlers.digits d) = None).
  { destruct d as [|d|d|d|d|d|d|d|d|d|d]; try reflexivity.
    destruct d; reflexivity. }
  assert (Hsign : readSign (Handlers.digits d) = (false, Handlers.digits d)).
  { destruct d; reflexivity. }
  assert (Hlen : exists k, (0 + Decimal.nb_digits d)%nat = S k).
  { destruct d; [contradiction | ..]; eexists; reflexivity. }
  destruct Hlen as [k Hk].
  destruct (Handlers.digits d) as [|c t] eqn:E.
  { destruct d; [contradiction | ..]; discriminate E. }
  rewrite <- E in *. rewrite Hnd, Hsign. unfold unsignedDecimal.
  destruct (list_eq_dec N.eq_dec (Handlers.digits d) (u16 "Infinity"))
    as [Heq|_].
  { exfalso. destruct d; [contradiction | ..]; cbv in Heq; discriminate. }
  change 0%N with (N.of_nat 0).
  rewrite readDigits_digits, Hk. cbv iota beta.
  cbn [Nat.add readExponent Z.of_nat Z.sub Z.opp Z.add].
  unfold Nat.of_uint. apply ofDecimal_integer.
Qed.

Lemma to_uint_nonnil (n : nat) : Nat.to_uint n <> Decimal.Nil.
Proof.
  rewrite <- (DecimalNat.Unsigned.of_to n) at 1.
  rewrite DecimalNat.Unsigned.to_of. apply DecimalFacts.unorm_nonnil.
Qed.

Lemma Number_decimal (n : nat) :
  Number (VString (Handlers.decimal n)) = ofZ (Z.of_nat n).
Proof.
  unfold Handlers.decimal. cbn [Number].
  rewrite StringToNumber_digits by apply to_uint_nonnil.
  now rewrite DecimalNat.Unsigned.of_to.
Qed.

Lemma parseStations_decimal (n : nat) :
  isFinite (ofZ (Z.of_nat n)) = true ->
  App1.parseStations (Handlers.decimal n) = [ofZ (Z.of_nat n)].
Proof.
  intros Hfin. rewrite parseStations_tokens.
  rewrite split_no_sep by apply digits_no_comma.
  cbn [finiteTokens]. unfold Handlers.decimal at 1 2.
  rewrite trim_digits. fold (Handlers.decimal n).
  now rewrite Number_decimal, Hfin.
Qed.

(** X4. Station ids typed as decimal numerals separated by commas are read
    back as those numbers, in order: [parseStations] undoes the joining of
    a non-empty list of ids, as long as every id is a finite number. *)
Theorem X4_parseStations_of_joined_ids (ids : list nat)
  (Hne : ids <> [])
  (Hfin : Forall (fun n => isFinite (ofZ (Z.of_nat n)) = true) ids) :
  App1.parseStations (Handlers.join (cu ",") (map Handlers.decimal ids))
  = map (fun n => ofZ (Z.of_nat n)) ids.
Proof.
  induction ids as [|n ids IH]; [contradiction|].
  inversion Hfin as [|? ? Hn Hrest]; subst.
  destruct ids as [|n' ids].
  - cbn [map Handlers.join]. now apply parseStations_decimal.
  - change (Handlers.join (cu ",") (map Handlers.decimal (n :: n' :: ids)))
      with (Handlers.decimal n
            ++ cu "," :: Handlers.join (cu ",")
                           (map Handlers.decimal (n' :: ids))).
    rewrite parseStations_comma, parseStations_decimal by exact Hn.
    rewrite IH; [reflexivity | discriminate | exact Hrest].
Qed.

Lemma X4_parseStations_of_joined_ids_witness :
  [1; 2; 2; 3]%nat <> []
  /\ Forall (fun n => isFinite (ofZ (Z.of_nat n)) = true) [1; 2; 2; 3]%nat
  /\ App1.parseStations (u16 "1,2,2,3")
     = map (fun n => ofZ (Z.of_nat n)) [1; 2; 2; 3]%nat.
Proof.
  assert (Hne : [1; 2; 2; 3]%nat <> []) by discriminate.
  assert (Hfin : Forall (fun n => isFinite (ofZ (Z.of_nat n)) = true)
                   [1; 2; 2; 3]%nat) by (repeat constructor).
  split; [exact Hne|]. split; [exact Hfin|].
  exact (X4_parseStations_of_joined_ids [1; 2; 2; 3]%nat Hne Hfin).
Defined.

(** X5. [toNumber] is idempotent: converting its own result again, with
    the same fallback, gives the same number. *)
Theorem X5_toNumber_idempotent (v : jsvalue) (fb : option number) :
  App1.toNumber (VNumber (App1.toNumber v fb)) fb = App1.toNumber v fb.
Proof.
  rewrite (toNumber_cases (VNumber _)). cbn [Number].
  rewrite toNumber_cases.
  destruct (isFinite (Number v)) eqn:E; [now rewrite E|].
  destruct (isFinite (fallbackOf fb)); reflexivity.
Qed.

(** *** Editing and adding rows *)

Lemma mapFrom_length {A B : Type} (f : A -> nat -> B) (i : nat)
  (l : list A) :
  List.length (Handlers.mapFrom f i l) = List.length l.
Proof.
  revert i. induction l as [|a l IH]; intros i; cbn; [reflexivity|].
  now rewrite IH.
Qed.

Lemma mapFrom_nth_error {A B : Type} (f : A -> nat -> B) (i j : nat)
  (l : list A) :
  nth_error (Handlers.mapFrom f i l) j
  = option_map (fun a => f a (i + j)%nat) (nth_error l j).
Proof.
  revert i j. induction l as [|a l IH]; intros i j.
  - now destruct j.
  - destruct j as [|j]; cbn [Handlers.mapFrom nth_error option_map].
    + now rewrite Nat.add_0_r.
    + rewrite IH. now rewrite Nat.add_succ_r.
Qed.

Lemma changeAt_length {A : Type} (index : nat) (change : A -> A)
  (l : list A) :
  List.length (Handlers.changeAt index change l) = List.length l.
Proof. apply mapFrom_length. Qed.

Lemma changeAt_nth_error {A : Type} (index : nat) (change : A -> A)
  (l : list A) (j : nat) :
  nth_error (Handlers.changeAt index change l) j
  = if Nat.eqb j index then option_map change (nth_error l j)
    else nth_error l j.
Proof.
  unfold Handlers.changeAt. rewrite mapFrom_nth_error. cbn [Nat.add].
  destruct (nth_error l j); cbn [option_map];
    destruct (Nat.eqb j index); reflexivity.
Qed.

Lemma list_ext {A : Type} (l l' : list A) :
  (forall j, nth_error l j = nth_error l' j) -> l = l'.
Proof.
  revert l'. induction l as [|a l IH]; intros [|a' l'] H.
  - reflexivity.
  - specialize (H O). discriminate.
  - specialize (H O). discriminate.
  - pose proof (H O) as H0. injection H0 as ->. f_equal.
    apply IH. intros j. exact (H (S j)).
Qed.

Lemma changeAt_out_of_range {A : Type} (index : nat) (change : A -> A)
  (l : list A) :
  (List.length l <= index)%nat -> Handlers.changeAt index change l = l.
Proof.
  intros Hle. apply list_ext. intros j. rewrite changeAt_nth_error.
  destruct (Nat.eqb_spec j index) as [->|_]; [|reflexivity].
  apply nth_error_None in Hle. now rewrite Hle.
Qed.

Lemma changeAt_map {A B : Type} (g : A -> B) (f : A -> A) (f' : B -> B)
  (index : nat) (l : list A) :
  (forall a, g (f a) = f' (g a)) ->
  map g (Handlers.changeAt index f l) = Handlers.changeAt index f' (map g l).
Proof.
  intros H. apply list_ext. intros j.
  rewrite nth_error_map, !changeAt_nth_error, nth_error_map.
  destruct (Nat.eqb j index); [|reflexivity].
  destruct (nth_error l j); cbn [option_map]; now rewrite ?H.
Qed.

Lemma changeAt_changeAt {A : Type} (i j : nat) (f g : A -> A)
  (l : list A) :
  (i <> j \/ forall a, f (g a) = g (f a)) ->
  Handlers.changeAt i f (Handlers.changeAt j g l)
  = Handlers.changeAt j g (Handlers.changeAt i f l).
Proof.
  intros H. apply list_ext. intros n. rewrite !changeAt_nth_error.
  destruct (Nat.eqb_spec n i) as [Hi|Hi], (Nat.eqb_spec n j) as [Hj|Hj];
    try reflexivity.
  destruct H as [H|H]; [congruence|].
  destruct (nth_error l n); cbn [option_map]; now rewrite ?H.
Qed.

Lemma changeAt_twice {A : Type} (i : nat) (f g : A -> A) (l : list A) :
  Handlers.changeAt i f (Handlers.changeAt i g l)
  = Handlers.changeAt i (fun a => f (g a)) l.
Proof.
  apply list_ext. intros n. rewrite !changeAt_nth_error.
  destruct (Nat.eqb n i); [|reflexivity].
  now destruct (nth_error l n).
Qed.

Lemma state_eta (s : Form.State) :
  {| Form.pi := Form.pi s; Form.stationTypes := Form.stationTypes s;
     Form.handovers := Form.handovers s;
     Form.districts := Form.districts s |} = s.
Proof. now destruct s. Qed.

(** X6. Editing a field of row [index] through a change handler replaces
    that field of that row and nothing else: the other rows, the other
    lists and [pi] are kept, the number of rows is kept, and an index past
    the last row leaves the whole state as it is. *)
Theorem X6_change_handlers_are_local (index : nat) (text : jsstring)
  (s : Form.State) :
  (forall field,
      let s' := Handlers.handleStationTypeChange index field text s in
      Form.pi s' = Form.pi s
      /\ Form.handovers s' = Form.handovers s
      /\ Form.districts s' = Form.districts s
      /\ List.length (Form.stationTypes s')
         = List.length (Form.stationTypes s)
      /\ (forall j, j <> index ->
                    nth_error (Form.stationTypes s') j
                    = nth_error (Form.stationTypes s) j)
      /\ nth_error (Form.stationTypes s') index
         = option_map (Handlers.setStationTypeField field text)
             (nth_error (Form.stationTypes s) index)
      /\ ((List.length (Form.stationTypes s) <= index)%nat -> s' = s))
  /\ (forall field,
      let s' := Handlers.handleHandoverChange index field text s in
      Form.pi s' = Form.pi s
      /\ Form.stationTypes s' = Form.stationTypes s
      /\ Form.districts s' = Form.districts s
      /\ List.length (Form.handovers s') = List.length (Form.handovers s)
      /\ (forall j, j <> index ->
                    nth_error (Form.handovers s') j
                    = nth_error (Form.handovers s) j)
      /\ nth_error (Form.handovers s') index
         = option_map (Handlers.setHandoverField field text)
             (nth_error (Form.handovers s) index)
      /\ ((List.length (Form.handovers s) <= index)%nat -> s' = s))
  /\ (forall field,
      let s' := Handlers.handleDistrictChange index field text s in
      Form.pi s' = Form.pi s
      /\ Form.stationTypes s' = Form.stationTypes s
      /\ Form.handovers s' = Form.handovers s
      /\ List.length (Form.districts s') = List.length (Form.districts s)
      /\ (forall j, j <> index ->
                    nth_error (Form.districts s') j
                    = nth_error (Form.districts s) j)
      /\ nth_error (Form.districts s') index
         = option_map (Handlers.setDistrictField field text)
             (nth_error (Form.districts s) index)
      /\ ((List.length (Form.districts s) <= index)%nat -> s' = s)).
Proof.
  split; [|split]; intros field s'; subst s';
    (split; [reflexivity|]); (split; [reflexivity|]);
    (split; [reflexivity|]);
    (split; [apply changeAt_length|]);
    (split; [intros j Hj; cbn; rewrite changeAt_nth_error;
             apply Nat.eqb_neq in Hj; now rewrite Hj|]);
    (split; [cbn; rewrite changeAt_nth_error; now rewrite Nat.eqb_refl|]);
    intros Hle;
    unfold Handlers.handleStationTypeChange, Handlers.handleHandoverChange,
      Handlers.handleDistrictChange, Handlers.withStationTypes,
      Handlers.withHandovers, Handlers.withDistricts;
    rewrite changeAt_out_of_range by exact Hle; apply state_eta.
Qed.

(** X7. An edit of a district field reaches the payload as the converted
    value of that field of that district: the payload built after
    [handleDistrictChange] is the payload built before, with the field of
    district [index] replaced by the text (id), its [toNumber] (area, k)
    or its [parseStations] (stations). *)
Theorem X7_district_edit_in_payload (index : nat)
  (field : Handlers.DistrictField) (text : jsstring) (s : Form.State) :
  let before := App1.buildPayloadFromForm s in
  App1.buildPayloadFromForm
    (Handlers.handleDistrictChange index field text s)
  = {| Payload.pi := Payload.pi before;
       Payload.stationTypes := Payload.stationTypes before;
       Payload.handovers := Payload.handovers before;
       Payload.districts :=
         Handlers.changeAt index
           (fun d =>
              match field with
              | Handlers.d_id =>
                  {| Payload.d_id := text;
                     Payload.d_area := Payload.d_area d;
                     Payload.d_k := Payload.d_k d;
                     Payload.d_stations := Payload.d_stations d |}
              | Handlers.area =>
                  {| Payload.d_id := Payload.d_id d;
                     Payload.d_area := App1.toNumber (VString text) None;
                     Payload.d_k := Payload.d_k d;
                     Payload.d_stations := Payload.d_stations d |}
              | Handlers.k =>
                  {| Payload.d_id := Payload.d_id d;
                     Payload.d_area := Payload.d_area d;
                     Payload.d_k := App1.toNumber (VString text) None;
                     Payload.d_stations := Payload.d_stations d |}
              | Handlers.stations =>
                  {| Payload.d_id := Payload.d_id d;
                     Payload.d_area := Payload.d_area d;
                     Payload.d_k := Payload.d_k d;
                     Payload.d_stations := App1.parseStations text |}
              end)
           (Payload.districts before) |}.
Proof.
  intros before. subst before. unfold App1.buildPayloadFromForm.
  cbn [Handlers.handleDistrictChange Handlers.withDistricts Form.pi
       Form.stationTypes Form.handovers Form.districts Payload.pi
       Payload.stationTypes Payload.handovers Payload.districts].
  f_equal. apply changeAt_map. intros d. destruct field; reflexivity.
Qed.

(** X8. Edits of different cells of the districts table commute, and of
    two edits of the same cell the later one stands. *)
Theorem X8_district_edits_commute (i j : nat)
  (f g : Handlers.DistrictField) (v w : jsstring) (s : Form.State) :
  ((i <> j \/ f <> g) ->
   Handlers.handleDistrictChange i f v
     (Handlers.handleDistrictChange j g w s)
   = Handlers.handleDistrictChange j g w
       (Handlers.handleDistrictChange i f v s))
  /\ Handlers.handleDistrictChange i f v
       (Handlers.handleDistrictChange i f w s)
     = Handlers.handleDistrictChange i f v s.
Proof.
  unfold Handlers.handleDistrictChange, Handlers.withDistricts.
  cbn [Form.pi Form.stationTypes Form.handovers Form.districts].
  split.
  - intros H. f_equal. apply changeAt_changeAt.
    destruct H as [H|H]; [now left|]. right. intros a.
    destruct f, g; try reflexivity; now contradiction H.
  - f_equal. rewrite changeAt_twice. apply list_ext. intros n.
    rewrite !changeAt_nth_error. destruct (Nat.eqb n i); [|reflexivity].
    destruct (nth_error (Form.districts s) n); [|reflexivity].
    cbn [option_map]. f_equal. destruct f; reflexivity.
Qed.

Lemma X8_district_edits_commute_witness :
  (0 <> 1 \/ Handlers.area <> Handlers.area)%nat
  /\ Handlers.handleDistrictChange 0 Handlers.area (u16 "1")
       (Handlers.handleDistrictChange 1 Handlers.area (u16 "2")
          initialState)
     = Handlers.handleDistrictChange 1 Handlers.area (u16 "2")
         (Handlers.handleDistrictChange 0 Handlers.area (u16 "1")
            initialState).
Proof.
  assert (H : (0 <> 1 \/ Handlers.area <> Handlers.area)%nat)
    by (left; discriminate).
  split; [exact H|].
  exact (proj1 (X8_district_edits_commute 0 1 Handlers.area Handlers.area
                  (u16 "1") (u16 "2") initialState) H).
Defined.

Lemma nth_error_snoc {A : Type} (l : list A) (a : A) (i : nat) (x : A) :
  nth_error (l ++ [a]) i = Some x ->
  nth_error l i = Some x \/ (i = List.length l /\ x = a).
Proof.
  intros H. destruct (Nat.lt_ge_cases i (List.length l)) as [Hlt|Hge].
  - left. now rewrite nth_error_app1 in H.
  - right. rewrite nth_error_app2 in H by exact Hge.
    destruct (i - List.length l)%nat as [|k] eqn:E.
    + cbn in H. injection H as <-. split; [lia | reflexivity].
    + destruct k; discriminate.
Qed.

Lemma initialState_numbered : Handlers.numbered initialState.
Proof.
  split; intros i row H;
    do 3 (destruct i as [|i]; [cbn in H; injection H as <-; reflexivity|]);
    destruct i; discriminate.
Qed.

Lemma addStationType_numbered (s : Form.State) :
  Handlers.numbered s -> Handlers.numbered (Handlers.addStationType s).
Proof.
  intros [Hst Hh]. split; [|exact Hh].
  intros i row H. cbn in H. apply nth_error_snoc in H.
  destruct H as [H | [-> ->]]; [now apply Hst | reflexivity].
Qed.

Lemma addHandover_numbered (s : Form.State) :
  Handlers.numbered s -> Handlers.numbered (Handlers.addHandover s).
Proof.
  intros [Hst Hh]. split; [exact Hst|].
  intros i row H. cbn in H. apply nth_error_snoc in H.
  destruct H as [H | [-> ->]]; [now apply Hh | reflexivity].
Qed.

(** X9. The add buttons keep the numbering of the rows: in the initial
    form the ids of the station-type rows and of the handover rows count
    up from 1, and [addStationType], [addHandover] and [addDistrict] keep
    that so; each appends one row and leaves the rows already there and
    the other lists untouched. *)
Theorem X9_add_keeps_numbering :
  Handlers.numbered initialState
  /\ forall s : Form.State,
       (Handlers.numbered s ->
        Handlers.numbered (Handlers.addStationType s)
        /\ Handlers.numbered (Handlers.addHandover s)
        /\ Handlers.numbered (Handlers.addDistrict s))
       /\ (exists row,
              Form.stationTypes (Handlers.addStationType s)
              = Form.stationTypes s ++ [row]
              /\ Form.handovers (Handlers.addStationType s)
                 = Form.handovers s
              /\ Form.districts (Handlers.addStationType s)
                 = Form.districts s)
       /\ (exists row,
              Form.handovers (Handlers.addHandover s)
              = Form.handovers s ++ [row]
              /\ Form.stationTypes (Handlers.addHandover s)
                 = Form.stationTypes s
              /\ Form.districts (Handlers.addHandover s)
                 = Form.districts s)
       /\ (exists row,
              Form.districts (Handlers.addDistrict s)
              = Form.districts s ++ [row]
              /\ Form.stationTypes (Handlers.addDistrict s)
                 = Form.stationTypes s
              /\ Form.handovers (Handlers.addDistrict s)
                 = Form.handovers s).
Proof.
  split; [apply initialState_numbered|]. intros s.
  split; [|split; [|split]]; try (eexists; repeat split; reflexivity).
  intros H. split; [now apply addStationType_numbered|].
  split; [now apply addHandover_numbered | exact H].
Qed.

Lemma X9_add_keeps_numbering_witness :
  Handlers.numbered initialState
  /\ Handlers.numbered
       (Handlers.addHandover (Handlers.addStationType initialState)).
Proof.
  destruct X9_add_keeps_numbering as [H0 H].
  split; [exact H0|].
  destruct (H initialState) as [Hs _].
  destruct (Hs H0) as [H1 _].
  destruct (H (Handlers.addStationType initialState)) as [Hs' _].
  exact (proj1 (proj2 (Hs' H1))).
Defined.

(** *** The station counter *)

Lemma totalStations_from (ds : list Form.DistrictRow) (acc : nat) :
  fold_left
    (fun a d => (a + List.length (App1.parseStations (Form.d_stations d)))%nat)
    ds acc
  = (acc + App1.totalStations ds)%nat.
Proof.
  unfold App1.totalStations. revert acc.
  induction ds as [|d ds IH]; intros acc; cbn [fold_left]; [lia|].
  rewrite IH, (IH (0 + _)%nat). lia.
Qed.

Lemma totalStations_cons (d : Form.DistrictRow) (ds : list Form.DistrictRow) :
  App1.totalStations (d :: ds)
  = (List.length (App1.parseStations (Form.d_stations d))
     + App1.totalStations ds)%nat.
Proof.
  unfold App1.totalStations at 1. cbn [fold_left].
  now rewrite totalStations_from.
Qed.

Lemma totalStations_app (ds ds' : list Form.DistrictRow) :
  App1.totalStations (ds ++ ds')
  = (App1.totalStations ds + App1.totalStations ds')%nat.
Proof.
  induction ds as [|d ds IH]; [reflexivity|].
  cbn [app]. rewrite !totalStations_cons, IH. lia.
Qed.

(** X10. The counter "stations in the request" is the number of station
    entries the payload carries, over all districts. *)
Theorem X10_totalStations_counts_payload (s : Form.State) :
  App1.totalStations (Form.districts s)
  = List.length
      (flat_map Payload.d_stations
         (Payload.districts (App1.buildPayloadFromForm s))).
Proof.
  unfold App1.buildPayloadFromForm. cbn [Payload.districts].
  induction (Form.districts s) as [|d ds IH]; [reflexivity|].
  rewrite totalStations_cons. cbn [map flat_map Payload.d_stations].
  now rewrite length_app, IH.
Qed.

(** X11. [addDistrict] appends a district named "d" followed by the new
    number of districts, with three stations: the counter grows by
    exactly 3 and the payload gains one district, the last one, with
    stations 1, 1, 1. *)
Theorem X11_addDistrict_adds_three_stations (s : Form.State) :
  App1.totalStations (Form.districts (Handlers.addDistrict s))
  = (App1.totalStations (Form.districts s) + 3)%nat
  /\ exists d,
       Payload.districts
         (App1.buildPayloadFromForm (Handlers.addDistrict s))
       = Payload.districts (App1.buildPayloadFromForm s) ++ [d]
       /\ Payload.d_id d
          = cu "d"
            :: Handlers.decimal (S (List.length (Form.districts s)))
       /\ Payload.d_stations d = [ofZ 1; ofZ 1; ofZ 1].
Proof.
  split.
  - cbn [Handlers.addDistrict Handlers.withDistricts Form.districts].
    rewrite totalStations_app. f_equal.
  - eexists. split; [|split].
    + unfold App1.buildPayloadFromForm.
      cbn [Handlers.addDistrict Handlers.withDistricts Form.districts
           Payload.districts].
      rewrite map_app. cbn [map]. reflexivity.
    + reflexivity.
    + vm_compute. reflexivity.
Qed.

(** X12. [toggleTheme] always changes the theme and always lands on one
    of the two themes; toggling twice gives back a theme exactly when it
    is one of the two. *)
Theorem X12_toggleTheme (prev : jsstring) :
  Handlers.toggleTheme prev <> prev
  /\ (Handlers.toggleTheme prev = u16 "theme-modern"
      \/ Handlers.toggleTheme prev = u16 "theme-guideline")
  /\ (Handlers.toggleTheme (Handlers.toggleTheme prev) = prev
      <-> (prev = u16 "theme-modern" \/ prev = u16 "theme-guideline")).
Proof.
  unfold Handlers.toggleTheme.
  destruct (list_eq_dec N.eq_dec prev (u16 "theme-modern")) as [->|Hne].
  - split; [discriminate|]. split; [now right|].
    split; [now left | reflexivity].
  - split; [congruence|]. split; [now left|].
    destruct (list_eq_dec N.eq_dec (u16 "theme-modern") (u16 "theme-modern"))
      as [_|H]; [|now contradiction H].
    split; [intros <-; now right|].
    intros [H|H]; [contradiction | now symmetry].
Qed.

(** *** Submitting *)

Section Submitting.
Import Submit.

Variable JSON_parse : jsstring -> Thrown + json.
Variable JSON_stringify : json -> jsstring.
Variable fetch : Request -> Thrown + Response.
Variable nullProperty : Thrown.

Let send := Submit.send JSON_stringify fetch nullProperty.





Lemma send_rejected (apiBase : jsstring) (payload : Body)
  (response : Response) (data : json) :
  fetch {| url := apiBase ++ u16 "/api/v1/calculate"; body := payload |}
  = inr response ->
  ok response = false -> parsed response = inr data ->
  send apiBase payload
  = match detail nullProperty data with
    | inl err => inl err
    | inr d => inl (newError (detailText JSON_stringify d))
    end.
Proof.
  intros Hf Ho Hp. unfold send, Submit.send. now rewrite Hf, Hp, Ho.
Qed.

(** X14. When the server answers with a status that is not ok and a JSON
    object whose [detail] is a non-empty string, [handleSubmit] shows
    exactly that string as the error and keeps no result; when the body
    has no [detail] (and is not [null]) it shows the fixed fallback text.
    This holds for the second component and for the first one in form
    mode, which then behave alike for the same API base. *)
Theorem X14_handleSubmit_shows_detail (inputMode jsonInput : jsstring)
  (s : Form.State) (response : Response) (data : json)
  (Hmode : inputMode <> u16 "json")
  (Hfetch : fetch {| url := u16 "http://localhost:8000"
                            ++ u16 "/api/v1/calculate";
                     body := FormBody (App1.buildPayloadFromForm s) |}
            = inr response)
  (Hok : ok response = false)
  (Hparsed : parsed response = inr data) :
  let ui2 := handleSubmit2 JSON_stringify fetch nullProperty s in
  handleSubmit1 JSON_parse JSON_stringify fetch nullProperty
    (u16 "http://localhost:8000") inputMode jsonInput s = ui2
  /\ result ui2 = JNull /\ loading ui2 = false
  /\ (forall text,
         detail nullProperty data = inr (Some (JString text)) ->
         text <> [] -> error ui2 = text)
  /\ (detail nullProperty data = inr None -> error ui2 = requestFailed).
Proof.
  intros ui2. subst ui2. unfold handleSubmit1, handleSubmit2.
  destruct (list_eq_dec N.eq_dec inputMode (u16 "json")) as [E|_];
    [contradiction|].
  change (App2.handleSubmit_payload s) with (App1.buildPayloadFromForm s).
  fold send.
  rewrite (send_rejected _ _ response data Hfetch Hok Hparsed).
  split; [reflexivity|].
  split; [now destruct (detail nullProperty data) as [[|m]|d]|].
  split; [now destruct (detail nullProperty data) as [[|m]|d]|].
  split.
  - intros text -> Hne. cbn. now destruct text.
  - intros ->. reflexivity.
Qed.

(** *** Loading a JSON file *)

Variable toLowerCase : jsstring -> jsstring.

Lemma endsWith_spec (t suffix : jsstring) :
  endsWith t suffix = true <-> exists before, t = before ++ suffix.
Proof.
  unfold endsWith. split.
  - destruct (list_eq_dec N.eq_dec
                (skipn (List.length t - List.length suffix) t) suffix)
      as [E|_]; [|discriminate].
    intros _. exists (firstn (List.length t - List.length suffix) t).
    rewrite <- E at 2. symmetry. apply firstn_skipn.
  - intros [before ->]. rewrite length_app.
    replace (List.length before + List.length suffix - List.length suffix)%nat
      with (List.length before + 0)%nat by lia.
    rewrite skipn_app, Nat.add_0_r, skipn_all.
    replace (List.length before - List.length before)%nat with O by lia.
    cbn [skipn app].
    destruct (list_eq_dec N.eq_dec suffix suffix) as [_|H];
      [|now contradiction H].
    apply Nat.leb_le. lia.
Qed.

(** X15. [handleJsonFile] replaces the JSON text only by the content of a
    file that could be read and whose lower-cased name ends in ".json",
    and only then clears the error; without a file nothing changes, and a
    file of another name or one that cannot be read keeps the JSON text
    and sets an error text that is not empty. *)
Theorem X15_handleJsonFile (file : option File)
  (jsonInput errorText : jsstring) :
  let after := handleJsonFile toLowerCase file jsonInput errorText in
  (file = None -> after = (jsonInput, errorText))
  /\ (forall f content,
         file = Some f ->
         (exists before, toLowerCase (name f) = before ++ u16 ".json") ->
         text f = inr content -> after = (content, []))
  /\ (forall f,
         file = Some f ->
         (~ (exists before, toLowerCase (name f) = before ++ u16 ".json")
          \/ exists err, text f = inl err) ->
         fst after = jsonInput /\ snd after <> [])
  /\ (fst after <> jsonInput ->
      exists f, file = Some f
                /\ (exists before,
                       toLowerCase (name f) = before ++ u16 ".json")
                /\ text f = inr (fst after) /\ snd after = []).
Proof.
  intros after. subst after. unfold handleJsonFile.
  destruct file as [f|].
  - destruct (endsWith (toLowerCase (name f)) (u16 ".json")) eqn:E;
      cbn [negb].
    + pose proof (proj1 (endsWith_spec _ _) E) as Hsuf.
      split; [discriminate|]. split; [|split].
      * intros f' content H _ Ht. injection H as <-. now rewrite Ht.
      * intros f' H [Hno | [err Ht]]; injection H as <-;
          [contradiction|]. rewrite Ht. split; [reflexivity | discriminate].
      * destruct (text f) as [err|content] eqn:Et; cbn [fst snd].
        -- intros H. now contradiction H.
        -- intros _. exists f. auto.
    + assert (Hno : ~ exists before,
                 toLowerCase (name f) = before ++ u16 ".json").
      { intros H. apply endsWith_spec in H. congruence. }
      split; [discriminate|]. split; [|split].
      * intros f' content H Hsuf. injection H as <-. contradiction.
      * intros f' H _. split; [reflexivity | discriminate].
      * cbn [fst]. intros H. now contradiction H.
  - split; [reflexivity|]. split; [discriminate|].
    split; [discriminate|]. cbn [fst]. intros H. now contradiction H.
Qed.

End Submitting.

Lemma X14_handleSubmit_shows_detail_witness :
  let fetch := fun _ : Submit.Request =>
    inr {| Submit.ok := false;
           Submit.parsed :=
             inr (Submit.JObject
                    [(u16 "detail", Submit.JString (u16 "bad"))]) |} in
  u16 "form" <> u16 "json"
  /\ Submit.error
       (Submit.handleSubmit2 (fun _ => []) fetch (Submit.newError None)
          initialState)
     = u16 "bad".
Proof.
  intros fetch.
  assert (Hmode : u16 "form" <> u16 "json") by discriminate.
  split; [exact Hmode|].
  destruct (X14_handleSubmit_shows_detail
              (fun _ => inl (Submit.newError None)) (fun _ => []) fetch
              (Submit.newError None) (u16 "form") [] initialState
              _ _ Hmode eq_refl eq_refl eq_refl)
    as [_ [_ [_ [H _]]]].
  apply H; [reflexivity | discriminate].
Defined.


End ClientMore.

(* ================================================================= *)
(** * Further properties of the calculation service *)

Section ServiceMore.
Import Engine.
Local Open Scope R_scope.
Local Open Scope list_scope.

(** *** The validation rules *)

Lemma checkDuplicates_NoDup (ids : list Z) :
  checkDuplicates ids = None <-> NoDup ids.
Proof.
  induction ids as [|i ids IH]; cbn [checkDuplicates].
  - split; [constructor | reflexivity].
  - destruct (existsb (Z.eqb i) ids) eqn:E.
    + split; [discriminate|]. intros H. inversion H as [|? ? Hni _]; subst.
      exfalso. apply Hni. apply existsb_exists in E.
      destruct E as [j [Hj Heq]]. apply Z.eqb_eq in Heq. now subst.
    + rewrite IH. split.
      * intros H. constructor; [|exact H]. intros Hin.
        assert (existsb (Z.eqb i) ids = true); [|congruence].
        apply existsb_exists. exists i. split; [exact Hin|].
        apply Z.eqb_refl.
      * intros H. now inversion H.
Qed.

Lemma findStationType_Some (sts : list StationType) (i : Z) :
  (exists st, findStationType sts i = Some st)
  <-> exists st, In st sts /\ id st = i.
Proof.
  split.
  - intros [st H]. exists st. now apply findStationType_In.
  - intros [st [Hin Hid]].
    destruct (findStationType sts i) as [st'|] eqn:E; [now exists st'|].
    exfalso. unfold findStationType in E.
    pose proof (find_none _ _ E st Hin) as H. cbn in H.
    apply Z.eqb_neq in H. contradiction.
Qed.

Lemma checkDistrict_None (d : DistrictInput) :
  checkDistrict d = None
  <-> 0 < area d /\ 0 < k d /\ (3 <= List.length (stations d))%nat.
Proof.
  split; [apply checkDistrict_valid|].
  intros [Ha [Hk Hlen]]. unfold checkDistrict.
  destruct (Rlt_dec 0 (area d)); [|contradiction].
  destruct (Rlt_dec 0 (k d)); [|contradiction].
  apply Nat.ltb_ge in Hlen. now rewrite Hlen.
Qed.

Lemma validate_accepts (req : CalculationRequest) :
  validate req = None
  <-> (forall d, In d (districts req) ->
         0 < area d /\ 0 < k d /\ (3 <= List.length (stations d))%nat)
      /\ (forall st, In st (stationTypes req) -> 0 < coverageArea st)
      /\ NoDup (map id (stationTypes req))
      /\ (forall d i, In d (districts req) -> In i (stations d) ->
            exists st, In st (stationTypes req) /\ id st = i).
Proof.
  unfold validate, orElse. split.
  - destruct (firstError checkDistrict (districts req)) eqn:E1;
      [discriminate|].
    destruct (firstError checkStationType (stationTypes req)) eqn:E2;
      [discriminate|].
    destruct (checkDuplicates (map id (stationTypes req))) eqn:E3;
      [discriminate|].
    intros E4. rewrite firstError_None in E1. rewrite firstError_None in E2.
    rewrite firstError_None in E4. apply checkDuplicates_NoDup in E3.
    split; [intros d Hd; now apply checkDistrict_None, E1|].
    split.
    { intros st Hst. specialize (E2 st Hst). unfold checkStationType in E2.
      destruct (Rlt_dec 0 (coverageArea st)); [assumption | discriminate]. }
    split; [exact E3|].
    intros d i Hd Hi. apply findStationType_Some.
    specialize (E4 d Hd). unfold checkReferences in E4.
    rewrite firstError_None in E4. specialize (E4 i Hi).
    destruct (findStationType (stationTypes req) i) as [st|];
      [now exists st | discriminate].
  - intros [Hd [Hst [Hnd Href]]].
    assert (E1 : firstError checkDistrict (districts req) = None).
    { apply firstError_None. intros d Hin. now apply checkDistrict_None, Hd. }
    assert (E2 : firstError checkStationType (stationTypes req) = None).
    { apply firstError_None. intros st Hin. unfold checkStationType.
      destruct (Rlt_dec 0 (coverageArea st)) as [|H]; [reflexivity|].
      exfalso. apply H. now apply Hst. }
    apply checkDuplicates_NoDup in Hnd. rewrite E1, E2, Hnd.
    apply firstError_None. intros d Hin. unfold checkReferences.
    apply firstError_None. intros i Hi.
    destruct (proj2 (findStationType_Some (stationTypes req) i)
                (Href d i Hin Hi)) as [st ->].
    reflexivity.
Qed.

Lemma resolveAll_local (src : Source) (local : HandoverMap) (ids : list Z) :
  (forall i, In i ids -> exists v, handoverOf local i = Some v) ->
  exists m, resolveAll src local ids = inr m.
Proof.
  induction ids as [|i ids IH]; intros H; cbn [resolveAll].
  - now eexists.
  - destruct (H i (or_introl eq_refl)) as [v Hv].
    unfold resolveOne. rewrite Hv.
    destruct IH as [m ->]; [intros j Hj; apply H; now right|].
    now eexists.
Qed.

(** X16. Without an external source a request with a positive [pi] is
    computed exactly when
    it meets the validation rules of README.md: every district has a
    positive area, a positive [k] and at least 3 stations; every station
    type has a positive coverage area; no station-type id occurs twice;
    every id in a district's stations is the id of a station type and has
    a handover entry.  Every other request with a positive [pi] ends with
    a validation error, never with another kind of failure.  (For
    [pi <= 0] the divisions and square roots of the engine are not those
    of the real numbers used here, and nothing is stated.) *)
Theorem X16_request_accepted_exactly (req : CalculationRequest)
  (Hpi : 0 < Engine.pi req) :
  ((exists resp, process None req = inr resp)
   <-> (forall d, In d (districts req) ->
          0 < area d /\ 0 < k d /\ (3 <= List.length (stations d))%nat)
       /\ (forall st, In st (stationTypes req) -> 0 < coverageArea st)
       /\ NoDup (map id (stationTypes req))
       /\ (forall d i, In d (districts req) -> In i (stations d) ->
             (exists st, In st (stationTypes req) /\ id st = i)
             /\ exists v,
                  handoverOf (localHandovers (handovers req)) i = Some v))
  /\ ((exists resp, process None req = inr resp)
      \/ exists e, process None req = inl (Validation e)).
Proof.
  assert (Hcases :
    (validate req = None
     /\ (forall i, In i (referencedIds req) ->
           exists v, handoverOf (localHandovers (handovers req)) i = Some v)
     /\ exists resp, process None req = inr resp)
    \/ ((validate req <> None
         \/ exists i, In i (referencedIds req)
              /\ handoverOf (localHandovers (handovers req)) i = None)
        /\ exists e, process None req = inl (Validation e))).
  { destruct (validate req) as [e|] eqn:Ev.
    - right. split; [left; discriminate|]. exists e.
      unfold process. now apply handle_invalid.
    - destruct (resolveHandovers None req) as [f|m] eqn:Er.
      + right.
        assert (Hex : exists i, In i (referencedIds req)
                  /\ handoverOf (localHandovers (handovers req)) i = None).
        { destruct (existsb
                      (fun i => match handoverOf
                                        (localHandovers (handovers req)) i
                                with Some _ => false | None => true end)
                      (referencedIds req)) eqn:Eb.
          - apply existsb_exists in Eb. destruct Eb as [i [Hi Hn]].
            exists i. split; [exact Hi|].
            now destruct (handoverOf _ i).
          - exfalso.
            destruct (resolveAll_local None
                        (localHandovers (handovers req))
                        (referencedIds req)) as [m Hm].
            + intros i Hi.
              destruct (handoverOf _ i) as [v|] eqn:Eh; [now exists v|].
              assert (existsb
                        (fun i => match handoverOf
                                          (localHandovers (handovers req)) i
                                  with Some _ => false | None => true end)
                        (referencedIds req) = true); [|congruence].
              apply existsb_exists. exists i. now rewrite Eh.
            + unfold resolveHandovers in Er. congruence. }
        split; [now right|].
        destruct Hex as [i [Hi Hn]].
        destruct (resolveAll_missing _ _ _ Hi Hn) as [y [Hy _]].
        exists (NoHandoverData y).
        unfold process, handle, resolveHandovers. now rewrite Ev, Hy.
      + left. split; [reflexivity|]. split.
        * intros i Hi.
          destruct (handoverOf _ i) as [v|] eqn:Eh; [now exists v|].
          destruct (resolveAll_missing _ _ _ Hi Eh) as [y [Hy _]].
          unfold resolveHandovers in Er. congruence.
        * destruct (process_total None req m Ev Er) as [rs [_ Hp]].
          exists (respond rs). exact Hp. }
  assert (Href : forall d i, In d (districts req) -> In i (stations d) ->
                             In i (referencedIds req)).
  { intros d i Hd Hi. unfold referencedIds.
    rewrite distinct_In, in_flat_map. now exists d. }
  split.
  - split.
    + intros [resp Hresp].
      destruct Hcases as [[Hv [Hh _]] | [_ [e He]]]; [|congruence].
      apply validate_accepts in Hv. destruct Hv as [H1 [H2 [H3 H4]]].
      repeat (split; [assumption|]).
      intros d i Hd Hi. split; [now apply (H4 d) | now apply Hh, (Href d)].
    + intros [H1 [H2 [H3 H4]]].
      destruct Hcases as [[_ [_ Hok]] | [[Hbad | [i [Hi Hn]]] _]];
        [exact Hok | |].
      * exfalso. apply Hbad. apply validate_accepts.
        repeat (split; [assumption|]).
        intros d i Hd Hi. exact (proj1 (H4 d i Hd Hi)).
      * exfalso. unfold referencedIds in Hi.
        rewrite distinct_In, in_flat_map in Hi.
        destruct Hi as [d [Hd Hi]].
        destruct (H4 d i Hd Hi) as [_ [v Hv]]. congruence.
  - destruct Hcases as [[_ [_ Hok]] | [_ He]]; [now left | now right].
Qed.

Lemma X16_request_accepted_exactly_witness :
  0 < Engine.pi smallRequest
  /\ (forall d, In d (districts smallRequest) ->
        0 < area d /\ 0 < k d /\ (3 <= List.length (stations d))%nat)
  /\ NoDup (map id (stationTypes smallRequest)).
Proof.
  assert (Hpi : 0 < Engine.pi smallRequest).
  { cbn [Engine.pi smallRequest]. lra. }
  split; [exact Hpi|].
  destruct (proj1 (proj1 (X16_request_accepted_exactly smallRequest Hpi))
              (ex_intro _ _ (small_process None)))
    as [H1 [_ [H3 _]]].
  split; [exact H1 | exact H3].
Defined.

(** *** The external source *)

Lemma resolveAll_not_found (lookup : Z -> Lookup) (local : HandoverMap)
  (ids : list Z) (x : Z) :
  In x ids -> handoverOf local x = None -> lookup x = NotFound ->
  (forall y, In y ids -> lookup y <> Unreachable) ->
  exists y, resolveAll (Some lookup) local ids
            = inl (Validation (NoHandoverData y))
            /\ In y ids /\ handoverOf local y = None
            /\ lookup y = NotFound.
Proof.
  induction ids as [|j ids IH]; intros Hin Hx Hnf Hreach; [contradiction|].
  cbn [resolveAll]. unfold resolveOne at 1.
  assert (Hrest : forall y, In y ids -> lookup y <> Unreachable).
  { intros y Hy. apply Hreach. now right. }
  destruct (handoverOf local j) as [v|] eqn:Ej.
  - destruct Hin as [->|Hin]; [congruence|].
    destruct (IH Hin Hx Hnf Hrest) as [y [-> [Hy [Hn Hl]]]].
    exists y. repeat split; auto. now right.
  - destruct (lookup j) as [v| |] eqn:El.
    + destruct Hin as [->|Hin]; [congruence|].
      destruct (IH Hin Hx Hnf Hrest) as [y [-> [Hy [Hn Hl]]]].
      exists y. repeat split; auto. now right.
    + exists j. repeat split; auto. now left.
    + exfalso. apply (Hreach j); [now left | exact El].
Qed.

(** X17. A "not found" answer of the external source ends the request
    with a validation error and without calculation (README.md: a 404 is
    treated as a validation error, 400, and the calculation stops): when a
    referenced station type without handover entry is unknown to the
    source, and the source can be reached for every referenced id, the
    request fails with "no handover data" for an id the source does not
    know, whatever the engine is. *)
Theorem X17_not_found_is_validation_error
  (engine : CalculationRequest -> HandoverMap
            -> Failure + CalculationResponse)
  (lookup : Z -> Lookup) (req : CalculationRequest) (x : Z)
  (Hvalid : validate req = None)
  (Hx : In x (referencedIds req))
  (Hlocal : handoverOf (localHandovers (handovers req)) x = None)
  (Hnot_found : lookup x = NotFound)
  (Hreach : forall y, In y (referencedIds req) -> lookup y <> Unreachable) :
  exists y,
    handle engine (Some lookup) req = inl (Validation (NoHandoverData y))
    /\ In y (referencedIds req)
    /\ handoverOf (localHandovers (handovers req)) y = None
    /\ lookup y = NotFound.
Proof.
  destruct (resolveAll_not_found lookup _ _ x Hx Hlocal Hnot_found Hreach)
    as [y [Hy H]].
  exists y. split; [|exact H].
  unfold handle, resolveHandovers. now rewrite Hvalid, Hy.
Qed.

Lemma X17_not_found_is_validation_error_witness :
  validate noHandoverRequest = None
  /\ In 7%Z (referencedIds noHandoverRequest)
  /\ exists y,
       handle calculate (Some (fun _ => NotFound)) noHandoverRequest
       = inl (Validation (NoHandoverData y)).
Proof.
  assert (Hin : In 7%Z (referencedIds noHandoverRequest))
    by (left; reflexivity).
  split; [apply noHandover_validate|]. split; [exact Hin|].
  destruct (X17_not_found_is_validation_error calculate
              (fun _ => NotFound) noHandoverRequest 7%Z
              noHandover_validate Hin eq_refl eq_refl
              (fun y _ H => ltac:(discriminate H)))
    as [y [H _]].
  now exists y.
Defined.

(** *** The order of a district's stations *)

Lemma allSome_perm {A B : Type} (f : A -> option B) (l l' : list A) :
  Permutation l l' ->
  match allSome f l, allSome f l' with
  | Some bs, Some bs' => Permutation bs bs'
  | None, None => True
  | _, _ => False
  end.
Proof.
  induction 1 as [|a l l' _ IH|a b l|l l' l'' _ IH1 _ IH2];
    cbn [allSome].
  - constructor.
  - destruct (f a); [|exact I].
    destruct (allSome f l), (allSome f l'); try exact IH; try exact I.
    now constructor.
  - destruct (f a), (f b), (allSome f l); try exact I.
    apply perm_swap.
  - destruct (allSome f l), (allSome f l'), (allSome f l'');
      try contradiction; try exact I.
    eapply perm_trans; eassumption.
Qed.

Lemma descending_perm_eq (l l' : list R) :
  StronglySorted (fun a b => b <= a) l ->
  StronglySorted (fun a b => b <= a) l' ->
  Permutation l l' -> l = l'.
Proof.
  revert l'. induction l as [|a l IH]; intros l' Hs Hs' Hp.
  - apply Permutation_nil in Hp. now subst.
  - destruct l' as [|b l'].
    { symmetry in Hp. now apply Permutation_nil in Hp. }
    apply StronglySorted_inv in Hs. destruct Hs as [Hs Ha].
    apply StronglySorted_inv in Hs'. destruct Hs' as [Hs' Hb].
    rewrite Forall_forall in Ha, Hb.
    assert (Hab : a = b).
    { assert (In a (b :: l')) as [->|Hin]
        by (apply (Permutation_in _ Hp); now left); [reflexivity|].
      assert (In b (a :: l)) as [->|Hin']
        by (apply (Permutation_in _ (Permutation_sym Hp)); now left);
        [reflexivity|].
      apply Rle_antisym; [now apply Hb | now apply Ha]. }
    subst b. f_equal. apply IH; try assumption.
    now apply Permutation_cons_inv in Hp.
Qed.

Lemma sorted_radii (pi : R) (l : list StationType) :
  StronglySorted (fun a b => radius pi b <= radius pi a) l ->
  StronglySorted (fun a b => b <= a) (map (radius pi) l).
Proof.
  induction 1 as [|a l _ IH Ha]; cbn [map]; constructor; [exact IH|].
  rewrite Forall_map. exact Ha.
Qed.

Lemma sortByRadius_radii_perm (pi : R) (occ occ' : list StationType) :
  Permutation occ occ' ->
  map (radius pi) (sortByRadius pi occ)
  = map (radius pi) (sortByRadius pi occ').
Proof.
  intros Hp. apply descending_perm_eq.
  - apply sorted_radii, sortByRadius_sorted.
  - apply sorted_radii, sortByRadius_sorted.
  - apply Permutation_map.
    eapply perm_trans; [apply sortByRadius_perm|].
    eapply perm_trans; [exact Hp|].
    apply Permutation_sym, sortByRadius_perm.
Qed.

Lemma C_of_radii (pi : R) (occ occ' : list StationType) :
  map (radius pi) (sortByRadius pi occ)
  = map (radius pi) (sortByRadius pi occ') ->
  C pi occ = C pi occ'.
Proof.
  unfold C, top3, D. intros H.
  destruct (sortByRadius pi occ) as [|a [|b [|c rest]]],
           (sortByRadius pi occ') as [|a' [|b' [|c' rest']]];
    try discriminate H; cbn [firstn]; try reflexivity.
  cbn [map] in H. injection H as Ha Hb Hc _.
  destruct rest, rest'; cbn [firstn]; now rewrite Ha, Hb, Hc.
Qed.

(** X18. The cluster factor of a district does not depend on the order in
    which the district lists its stations: the same station ids in another
    order resolve to the same occurrences, the three largest radii are the
    same numbers in the same descending order, and [C] is the same; which
    of several occurrences of equal radius is taken cannot change it. *)
Theorem X18_cluster_factor_ignores_order (pi : R) (sts : list StationType)
  (ids reordered : list Z) (occ : list StationType)
  (Hperm : Permutation ids reordered)
  (Hocc : allSome (findStationType sts) ids = Some occ) :
  exists occ',
    allSome (findStationType sts) reordered = Some occ'
    /\ Permutation occ occ'
    /\ map (radius pi) (top3 pi occ') = map (radius pi) (top3 pi occ)
    /\ C pi occ' = C pi occ.
Proof.
  pose proof (allSome_perm (findStationType sts) _ _ Hperm) as Hp.
  rewrite Hocc in Hp.
  destruct (allSome (findStationType sts) reordered) as [occ'|];
    [|contradiction].
  exists occ'. split; [reflexivity|]. split; [exact Hp|].
  pose proof (sortByRadius_radii_perm pi occ occ' Hp) as Hr.
  split.
  - unfold top3. now rewrite <- !firstn_map, Hr.
  - symmetry. now apply C_of_radii.
Qed.

Lemma X18_cluster_factor_ignores_order_witness :
  Permutation (stations readmeDistrict) [3; 2; 1; 2]%Z
  /\ exists occ occ',
       allSome (findStationType (stationTypes readmeRequest))
         (stations readmeDistrict) = Some occ
       /\ allSome (findStationType (stationTypes readmeRequest))
            [3; 2; 1; 2]%Z = Some occ'
       /\ C (Engine.pi readmeRequest) occ' = C (Engine.pi readmeRequest) occ.
Proof.
  assert (Hp : Permutation (stations readmeDistrict) [3; 2; 1; 2]%Z).
  { cbn [stations readmeDistrict].
    apply (perm_trans (l' := [2; 1; 2; 3]%Z)); [apply perm_swap|].
    apply (perm_trans (l' := [2; 1; 3; 2]%Z));
      [do 2 apply perm_skip; apply perm_swap|].
    apply (perm_trans (l' := [2; 3; 1; 2]%Z));
      [apply perm_skip, perm_swap|].
    apply (perm_trans (l' := [3; 2; 1; 2]%Z)); [apply perm_swap|].
    apply Permutation_refl. }
  split; [exact Hp|].
  destruct (X18_cluster_factor_ignores_order (Engine.pi readmeRequest)
              (stationTypes readmeRequest) (stations readmeDistrict)
              [3; 2; 1; 2]%Z _ Hp eq_refl)
    as [occ' [Ho [_ [_ HC]]]].
  eexists. exists occ'. split; [reflexivity|]. split; [exact Ho | exact HC].
Defined.

(** *** Signs *)

Lemma roundHalfEven_nonneg (x : R) : 0 <= x -> (0 <= roundHalfEven x)%Z.
Proof.
  intros Hx. pose proof (floor_bounds x) as [Hl Hu].
  assert (Hf : (0 <= up x - 1)%Z).
  { apply Z.lt_succ_r, lt_IZR. rewrite succ_IZR. lra. }
  unfold roundHalfEven.
  destruct (Rlt_dec (x - IZR (up x - 1)) (1 / 2)); [exact Hf|].
  destruct (Rlt_dec (1 / 2) (x - IZR (up x - 1))); [lia|].
  destruct (Z.even (up x - 1)); lia.
Qed.

Lemma round2_nonneg (x : R) : 0 <= x -> 0 <= round2 x.
Proof.
  intros Hx. unfold round2.
  assert (H : (0 <= roundHalfEven (x * 100))%Z)
    by (apply roundHalfEven_nonneg; lra).
  apply IZR_le in H. lra.
Qed.

Lemma Rsum_positive (l : list R) :
  l <> [] -> Forall (fun x => 0 < x) l -> 0 < Rsum l.
Proof.
  unfold Rsum. intros Hne H. induction H as [|x l Hx Hl IH];
    [contradiction|].
  cbn [fold_right]. destruct l as [|y l]; [cbn; lra|].
  assert (0 < fold_right Rplus 0 (y :: l)) by (apply IH; discriminate).
  lra.
Qed.

Lemma Rsum_nonneg (l : list R) : Forall (fun x => 0 < x) l -> 0 <= Rsum l.
Proof.
  unfold Rsum. induction 1 as [|x l Hx _ IH]; cbn [fold_right]; lra.
Qed.

Lemma Forall2_right {A B : Type} (P : A -> B -> Prop) (l : list A)
  (l' : list B) (y : B) :
  Forall2 P l l' -> In y l' -> exists x, In x l /\ P x y.
Proof.
  induction 1 as [|a b l l' Hab _ IH]; intros Hin; [contradiction|].
  destruct Hin as [<-|Hin].
  - exists a. split; [now left | exact Hab].
  - destruct (IH Hin) as [x [Hx Hp]]. exists x. split; [now right | exact Hp].
Qed.

Lemma resolved_in (sts : list StationType) (ids : list Z)
  (occ : list StationType) :
  Forall2 (fun i st => findStationType sts i = Some st) ids occ ->
  forall st, In st occ -> In st sts.
Proof.
  intros HF st Hin. destruct (Forall2_right _ _ _ _ HF Hin) as [i [_ H]].
  now apply (findStationType_In _ i).
Qed.

Lemma district_positive (req : CalculationRequest) (m : HandoverMap)
  (d : DistrictInput) (res : DistrictResult) (nf : R) :
  validate req = None -> 0 < pi req -> In d (districts req) ->
  calculateDistrict (pi req) (stationTypes req) m d = inr (res, nf) ->
  0 < nf /\ 0 <= n res.
Proof.
  intros Hv Hpi Hd Hc.
  destruct (validate_valid req Hv) as [Hds [Hsts _]].
  destruct (checkDistrict_valid d (Hds d Hd)) as [Ha [Hk Hlen]].
  destruct (calculateDistrict_inv _ _ _ _ _ _ Hc)
    as [occ [values [c [Ho [_ [HC [_ [Hnf Hres]]]]]]]].
  pose proof (allSome_length _ _ _ Ho) as Hlo.
  pose proof (resolved_in _ _ _ (allSome_Forall2 _ _ _ Ho)) as Hin.
  assert (Hc0 : 0 < c).
  { destruct (C_total (pi req) occ) as [c' [HC' Hpos]]; [lia|].
    congruence. }
  assert (HL : 0 < L (pi req) d occ).
  { unfold L, mean. apply Rdiv_lt_0_compat.
    - apply Rsum_positive.
      + destruct occ; [cbn in Hlo; lia | discriminate].
      + rewrite Forall_map. apply Forall_forall. intros st Hst.
        rewrite Li_closed_form; [|exact Hpi|lra|now apply Hsts, Hin].
        apply Rmult_lt_0_compat; [exact Hk|].
        apply Rdiv_lt_0_compat; [exact Ha | now apply Hsts, Hin].
    - rewrite length_map. apply lt_0_INR. lia. }
  assert (Hn0 : 0 < L (pi req) d occ / c) by now apply Rdiv_lt_0_compat.
  assert (Hnf0 : 0 < nf).
  { rewrite Hnf. destruct (existsb _ occ); lra. }
  split; [exact Hnf0|]. rewrite Hres. cbn [n].
  apply round2_nonneg. lra.
Qed.

(** X19. For a valid request with a positive [pi] whose handovers
    resolve, the response exists, every district's station count is
    strictly positive at full precision and not negative as reported, and
    [totalN] is not negative. *)
Theorem X19_station_counts_are_positive (src : Source)
  (req : CalculationRequest) (m : HandoverMap)
  (Hvalid : validate req = None)
  (Hresolved : resolveHandovers src req = inr m)
  (Hpi : 0 < pi req) :
  exists rs,
    process src req = inr (respond rs)
    /\ Forall2 (fun d r =>
                  calculateDistrict (pi req) (stationTypes req) m d = inr r)
         (districts req) rs
    /\ Forall (fun r => 0 < snd r /\ 0 <= n (fst r)) rs
    /\ 0 <= totalN (respond rs).
Proof.
  destruct (process_total src req m Hvalid Hresolved) as [rs [Hrs Hp]].
  pose proof (calculateDistricts_inv _ _ _ _ _ Hrs) as HF.
  exists rs. split; [exact Hp|]. split; [exact HF|].
  assert (Hall : Forall (fun r => 0 < snd r /\ 0 <= n (fst r)) rs).
  { apply Forall_forall. intros [res nf] Hin.
    destruct (Forall2_right _ _ _ _ HF Hin) as [d [Hd Hc]].
    exact (district_positive req m d res nf Hvalid Hpi Hd Hc). }
  split; [exact Hall|].
  cbn [totalN respond]. apply round2_nonneg, Rsum_nonneg.
  rewrite Forall_map. eapply Forall_impl; [|exact Hall].
  intros r [H _]. exact H.
Qed.

Lemma X19_station_counts_are_positive_witness :
  validate smallRequest = None
  /\ resolveHandovers None smallRequest = inr [(1%Z, 14)]
  /\ 0 < pi smallRequest
  /\ exists rs, process None smallRequest = inr (respond rs)
                /\ 0 <= totalN (respond rs).
Proof.
  assert (Hpi : 0 < pi smallRequest) by (cbn [pi smallRequest]; lra).
  split; [apply small_validate|]. split; [reflexivity|].
  split; [exact Hpi|].
  destruct (X19_station_counts_are_positive None smallRequest
              [(1%Z, 14)] small_validate eq_refl Hpi)
    as [rs [Hp [_ [_ Ht]]]].
  exists rs. split; [exact Hp | exact Ht].
Defined.
End ServiceMore.
